(** * Calico/OpenStack etcd transport (calico/openstack/t_etcd.py)

    A shallow embedding of the rule translation, the profile assembly with
    its bounded retry, the endpoint documents and the event entry points of
    [CalicoTransportEtcd], together with the properties stated about them. *)

From Stdlib Require Import ZArith Ascii.
From stdpp Require Import base option strings list gmap pretty.

Local Open Scope string_scope.
Local Open Scope list_scope.

(** ** Python values *)

(** The scalar values that occur in the fields of a Neutron rule or port:
    [None], an integer, or a string. *)
Inductive pyval :=
  | PyNone
  | PyInt (n : Z)
  | PyStr (s : string).

#[global] Instance pyval_eq_dec : EqDecision pyval.
Proof. solve_decision. Defined.

(** [a == b] *)
Definition py_eq (a b : pyval) : bool := bool_decide (a = b).

(** [a is None] *)
Definition is_none (a : pyval) : bool :=
  match a with PyNone => true | _ => false end.

(** Truth value of [a] in a condition: [None], [0] and [''] are false. *)
Definition truthy (a : pyval) : bool :=
  match a with
  | PyNone => false
  | PyInt n => negb (n =? 0)%Z
  | PyStr s => match s with EmptyString => false | String _ _ => true end
  end.

(** [a or b] *)
Definition py_or (a b : pyval) : pyval := if truthy a then a else b.

(** ['%s' % a] *)
Definition py_str (a : pyval) : string :=
  match a with
  | PyNone => "None"
  | PyInt n => pretty n
  | PyStr s => s
  end.

(** Values stored under the keys of a document: a scalar or a list of
    scalars (port lists, address lists). *)
Inductive jval :=
  | JAtom (a : pyval)
  | JList (l : list pyval).

#[global] Instance jval_eq_dec : EqDecision jval.
Proof. solve_decision. Defined.

(** ** Exceptions *)

Inductive exn :=
  | KeyError
  | AttributeError
  | EtcdKeyNotFound.

#[global] Instance exn_eq_dec : EqDecision exn.
Proof. solve_decision. Defined.

Inductive result (A : Type) :=
  | Ok (a : A)
  | Raise (e : exn).
Arguments Ok {A} a.
Arguments Raise {A} e.

#[global] Instance result_ret : MRet result := λ A a, Ok a.
#[global] Instance result_bind : MBind result := λ A B f m,
  match m with
  | Ok a => f a
  | Raise e => Raise e
  end.

(** Subscript of a dictionary literal [{k1: v1, ...}[k]]. *)
Fixpoint dict_getitem {V : Type} (d : list (pyval * V)) (k : pyval) : result V :=
  match d with
  | [] => Raise KeyError
  | (k', v) :: d' => if py_eq k' k then Ok v else dict_getitem d' k
  end.

(** ** Rule translation *)

Record neutron_rule := {
  direction : pyval;
  ethertype : pyval;
  protocol : pyval;
  remote_group_id : pyval;
  remote_ip_prefix : pyval;
  port_range_min : pyval;
  port_range_max : pyval
}.

(** [if v is not None: d[k] = v] for an optional value. *)
Definition set_if_some (k : string) (o : option jval)
    (d : gmap string jval) : gmap string jval :=
  match o with
  | Some v => <[k := v]> d
  | None => d
  end.

(** [v] when [v is not None]. *)
Definition not_none (v : pyval) : option jval :=
  if is_none v then None else Some (JAtom v).

(** [v] when [v is not None and v != -1]. *)
Definition not_any (v : pyval) : option jval :=
  if negb (is_none v) && negb (py_eq v (PyInt (-1))) then Some (JAtom v) else None.

(** The port specification computed in the non-ICMP branch. *)
Definition port_spec_of (lo hi : pyval) : option jval :=
  if py_eq lo (PyInt (-1)) then Some (JList [PyStr "1:65535"])
  else if py_eq lo hi then
    (if negb (is_none lo) then Some (JList [lo]) else None)
  else Some (JList [PyStr (py_str lo +:+ ":" +:+ py_str hi)]).

Definition _neutron_rule_to_etcd_rule (rule : neutron_rule)
    : result (gmap string jval) :=
  let ethertype := ethertype rule in
  let etcd_rule : gmap string jval := ∅ in
  (* Map the ethertype field. *)
  ip_version ← dict_getitem [(PyStr "IPv4", PyInt 4); (PyStr "IPv6", PyInt 6)]
                            ethertype;
  let etcd_rule := <["ip_version" := JAtom ip_version]> etcd_rule in
  (* Map the protocol field. *)
  etcd_rule ←
    (if is_none (protocol rule) || py_eq (protocol rule) (PyInt (-1)) then
       Ok etcd_rule
     else if py_eq (protocol rule) (PyStr "icmp") then
       p ← dict_getitem [(PyStr "IPv4", PyStr "icmp");
                         (PyStr "IPv6", PyStr "icmpv6")] ethertype;
       Ok (<["protocol" := JAtom p]> etcd_rule)
     else
       Ok (<["protocol" := JAtom (protocol rule)]> etcd_rule));
  (* 'Any IP address'. *)
  let net := remote_ip_prefix rule in
  net ←
    (if negb (truthy (py_or net (remote_group_id rule))) then
       dict_getitem [(PyStr "IPv4", PyStr "0.0.0.0/0");
                     (PyStr "IPv6", PyStr "::/0")] ethertype
     else Ok net);
  let port_spec : option jval := None in
  let '(etcd_rule, port_spec) :=
    if py_eq (protocol rule) (PyStr "icmp") then
      let icmp_type := port_range_min rule in
      let etcd_rule := set_if_some "icmp_type" (not_any icmp_type) etcd_rule in
      let icmp_code := port_range_max rule in
      let etcd_rule := set_if_some "icmp_code" (not_any icmp_code) etcd_rule in
      (etcd_rule, port_spec)
    else
      (etcd_rule, port_spec_of (port_range_min rule) (port_range_max rule)) in
  (* Put it all together. *)
  if py_eq (direction rule) (PyStr "ingress") then
    let etcd_rule := set_if_some "src_tag" (not_none (remote_group_id rule)) etcd_rule in
    let etcd_rule := set_if_some "src_net" (not_none net) etcd_rule in
    let etcd_rule := set_if_some "dst_ports" port_spec etcd_rule in
    Ok etcd_rule
  else
    let etcd_rule := set_if_some "dst_tag" (not_none (remote_group_id rule)) etcd_rule in
    let etcd_rule := set_if_some "dst_net" (not_none net) etcd_rule in
    let etcd_rule := set_if_some "dst_ports" port_spec etcd_rule in
    Ok etcd_rule.

(** ** Identifiers and documents *)

(** [str.split(sep)] for a one-character separator: [go] carries the
    characters of the current piece. *)
Fixpoint split_go (sep : ascii) (cur : string) (s : string) : list string :=
  match s with
  | EmptyString => [cur]
  | String c s' =>
      if Ascii.eqb c sep then cur :: split_go sep EmptyString s'
      else split_go sep (cur +:+ String c EmptyString) s'
  end.

Definition split (sep : ascii) (s : string) : list string :=
  split_go sep EmptyString s.

(** [sep.join(l)] *)
Fixpoint join (sep : string) (l : list string) : string :=
  match l with
  | [] => EmptyString
  | [x] => x
  | x :: l' => x +:+ sep +:+ join sep l'
  end.

Definition underscore : ascii := "_"%char.

Record fixed_ip := {
  ip_address : string;
  gateway : pyval
}.

Record port := {
  binding_host_id : string;
  device_id : string;
  port_id : string;
  admin_state_up : bool;
  interface_name : pyval;
  mac_address : pyval;
  fixed_ips : list fixed_ip;
  security_groups : list string
}.

Record security_group := {
  sg_id : string;
  security_group_rules : list neutron_rule
}.

Definition port_profile_id (port : port) : string :=
  join "_" (security_groups port).

Definition profile_tags (profile_id : string) : list string :=
  split underscore profile_id.

(** [c in s] for a character [c]. *)
Fixpoint contains_char (c : ascii) (s : string) : bool :=
  match s with
  | EmptyString => false
  | String c' s' => Ascii.eqb c' c || contains_char c s'
  end.

Record profile_rules_doc := {
  inbound_rules : list (gmap string jval);
  outbound_rules : list (gmap string jval)
}.

(** What the store holds under a key: a plain string, or the JSON text of
    a rules document or of a tag list ([json.dumps] keeps the structure). *)
Inductive etcd_value :=
  | Plain (s : string)
  | JsonRules (d : profile_rules_doc)
  | JsonTags (l : list string).

(** [v == s] for a value read from the store ([None] when nothing was
    read) and a string literal [s]. *)
Definition value_is (v : option etcd_value) (s : string) : bool :=
  match v with
  | Some (Plain s') => bool_decide (s' = s)
  | _ => false
  end.

(** ** The transport object and its world *)

Inductive semaphore := Semaphore.

(** The attributes of a [CalicoTransportEtcd] instance that the methods
    read; an attribute that was never assigned is [None]. *)
Record transport := {
  driver : nat;
  _sgs_semaphore : option semaphore;
  sgs : option (gmap string security_group);
  profile_semaphore : option semaphore;
  needed_profiles : option (gset string)
}.

Inductive lock := SgsLock | ProfileLock.

Inductive event :=
  | EvAcquire (l : lock)
  | EvRelease (l : lock)
  | EvCacheSet (sgid : string)
  | EvSleep (ms : nat)
  | EvRead (key : string)
  | EvWrite (key : string) (v : etcd_value)
  | EvDelete (key : string).

(** The object, the contents of the store behind [self.client], the
    events so far, and the number of times the green thread has slept. *)
Record world := {
  self : transport;
  etcd : gmap string etcd_value;
  trace : list event;
  yields : nat
}.

Definition M (A : Type) : Type := world → result A * world.

#[global] Instance M_ret : MRet M := λ A a w, (Ok a, w).
#[global] Instance M_bind : MBind M := λ A B f m w,
  match m w with
  | (Ok a, w') => f a w'
  | (Raise e, w') => (Raise e, w')
  end.

Definition raise {A : Type} (e : exn) : M A := λ w, (Raise e, w).

(** Run [m] and hand its outcome, normal or exceptional, to the caller
    ([try: m except ...]). *)
Definition attempt {A : Type} (m : M A) : M (result A) := λ w,
  let '(r, w') := m w in (Ok r, w').

Definition lift {A : Type} (r : result A) : M A := λ w, (r, w).

Definition emit (e : event) : M unit := λ w,
  (Ok tt, {| self := self w; etcd := etcd w; trace := trace w ++ [e];
             yields := yields w |}).

(** [self.attr]: an attribute that was never assigned raises. *)
Definition get_attr {A : Type} (attr : transport → option A) : M A := λ w,
  match attr (self w) with
  | Some a => (Ok a, w)
  | None => (Raise AttributeError, w)
  end.

(** [with sem: body]: the semaphore is released on the way out, also when
    [body] raises. *)
Definition with_lock {A : Type} (sem : transport → option semaphore)
    (l : lock) (body : M A) : M A :=
  _ ← get_attr sem;
  _ ← emit (EvAcquire l);
  r ← attempt body;
  _ ← emit (EvRelease l);
  lift r.

(** [self.sgs[key] = sg], on the dictionary [c] that [self.sgs] holds. *)
Definition set_sgs (c : gmap string security_group) (key : string)
    (sg : security_group) : M unit := λ w,
  (Ok tt,
   {| self := {| driver := driver (self w);
                 _sgs_semaphore := _sgs_semaphore (self w);
                 sgs := Some (<[key := sg]> c);
                 profile_semaphore := profile_semaphore (self w);
                 needed_profiles := needed_profiles (self w) |};
      etcd := etcd w; trace := trace w ++ [EvCacheSet key];
      yields := yields w |}).

(** The etcd client, as the plugin uses it. *)
Definition client_read (key : string) : M etcd_value := λ w,
  let w' := {| self := self w; etcd := etcd w;
               trace := trace w ++ [EvRead key]; yields := yields w |} in
  match etcd w !! key with
  | Some v => (Ok v, w')
  | None => (Raise EtcdKeyNotFound, w')
  end.

Definition client_write (key : string) (v : etcd_value) : M unit := λ w,
  (Ok tt, {| self := self w; etcd := <[key := v]> (etcd w);
             trace := trace w ++ [EvWrite key v]; yields := yields w |}).

Definition client_delete (key : string) : M unit := λ w,
  let w' := {| self := self w; etcd := delete key (etcd w);
               trace := trace w ++ [EvDelete key]; yields := yields w |} in
  match etcd w !! key with
  | Some _ => (Ok tt, w')
  | None => (Raise EtcdKeyNotFound, w')
  end.

(** [CalicoTransportEtcd.__init__]: stores the driver and the client and
    spawns the resync thread; nothing else is assigned. *)
Definition __init__ (driver : nat) : transport :=
  {| driver := driver;
     _sgs_semaphore := None;
     sgs := None;
     profile_semaphore := None;
     needed_profiles := None |}.

(** ** The methods *)

Section Transport.

(** What the other green threads do to the object while this one sleeps:
    [interference n] is applied at the [n]-th sleep. *)
Variable interference : nat → transport → transport.

(** The order in which a [for] loop walks a set: the language fixes none,
    so it is whatever enumeration of the members [set_order] gives. *)
Variable set_order : gset string → list string.

(** The key layout of [calico.datamodel_v1], which the plugin imports. *)
Variable READY_KEY : string.
Variable key_for_config : string → string.
Variable key_for_endpoint : string → string → string → string → string.
Variable key_for_profile_rules : string → string.
Variable key_for_profile_tags : string → string.

(** [eventlet.sleep]: the thread yields and the others run. *)
Definition sleep (ms : nat) : M unit := λ w,
  (Ok tt, {| self := interference (yields w) (self w); etcd := etcd w;
             trace := trace w ++ [EvSleep ms]; yields := S (yields w) |}).

Definition resync_endpoints : M unit := mret tt.

Definition resync_security_groups : M unit := mret tt.

Definition port_etcd_key (port : port) : string :=
  key_for_endpoint (binding_host_id port) "openstack" (device_id port)
                   (port_id port).

(** One turn of the loop over [port['fixed_ips']]. *)
Definition add_fixed_ip
    (acc : gmap string jval * list pyval * list pyval) (ip : fixed_ip)
    : gmap string jval * list pyval * list pyval :=
  let '(data, ipv4_nets, ipv6_nets) := acc in
  if contains_char ":" (ip_address ip) then
    (set_if_some "ipv6_gateway" (not_none (gateway ip)) data,
     ipv4_nets, ipv6_nets ++ [PyStr (ip_address ip +:+ "/128")])
  else
    (set_if_some "ipv4_gateway" (not_none (gateway ip)) data,
     ipv4_nets ++ [PyStr (ip_address ip +:+ "/32")], ipv6_nets).

Definition port_etcd_data (port : port) : M (gmap string jval) :=
  let data : gmap string jval :=
    <["profile_id" := JAtom (PyStr (port_profile_id port))]>
    (<["mac" := JAtom (mac_address port)]>
    (<["name" := JAtom (interface_name port)]>
    (<["state" := JAtom (PyStr (if admin_state_up port then "active"
                                else "inactive"))]> ∅))) in
  let '(data, ipv4_nets, ipv6_nets) :=
    foldl add_fixed_ip (data, [], []) (fixed_ips port) in
  let data := <["ipv4_nets" := JList ipv4_nets]> data in
  let data := <["ipv6_nets" := JList ipv6_nets]> data in
  mret data.

(** The loop over the rules of one group in [profile_rules]. *)
Fixpoint translate_rules (rules : list neutron_rule)
    (inbound outbound : list (gmap string jval))
    : result (list (gmap string jval) * list (gmap string jval)) :=
  match rules with
  | [] => Ok (inbound, outbound)
  | rule :: rules' =>
      etcd_rule ← _neutron_rule_to_etcd_rule rule;
      if py_eq (direction rule) (PyStr "ingress") then
        translate_rules rules' (inbound ++ [etcd_rule]) outbound
      else
        translate_rules rules' inbound (outbound ++ [etcd_rule])
  end.

(** [with self._sgs_semaphore: rules = self.sgs[sgid]['security_group_rules']] *)
Definition read_rules (sgid : string) : M (list neutron_rule) :=
  with_lock _sgs_semaphore SgsLock
    (c ← get_attr sgs;
     sg ← lift (match c !! sgid with
                | Some sg => Ok sg
                | None => Raise KeyError
                end);
     mret (security_group_rules sg)).

(** The [while rules is None] loop of [profile_rules]; [retries] is the
    counter of the source, which starts at 20 and leaves the loop when the
    decrement reaches 0, so that the loop is never entered at 0. *)
Fixpoint wait_for_rules (retries : nat) (sgid : string)
    : M (list neutron_rule) :=
  match retries with
  | 0 => raise KeyError
  | S retries' =>
      r ← attempt (read_rules sgid);
      match r with
      | Ok rules => mret rules
      | Raise KeyError =>
          if bool_decide (retries' = 0) then raise KeyError
          else _ ← sleep 200; wait_for_rules retries' sgid
      | Raise e => raise e
      end
  end.

(** The loop over the constituent groups in [profile_rules]. *)
Fixpoint profile_rules_from (sgids : list string)
    (inbound outbound : list (gmap string jval)) : M profile_rules_doc :=
  match sgids with
  | [] => mret {| inbound_rules := inbound; outbound_rules := outbound |}
  | sgid :: sgids' =>
      rules ← wait_for_rules 20 sgid;
      io ← lift (translate_rules rules inbound outbound);
      profile_rules_from sgids' io.1 io.2
  end.

Definition profile_rules (profile_id : string) : M profile_rules_doc :=
  profile_rules_from (profile_tags profile_id) [] [].

Definition write_profile_to_etcd (profile_id : string) : M unit :=
  rules ← profile_rules profile_id;
  _ ← client_write (key_for_profile_rules profile_id) (JsonRules rules);
  client_write (key_for_profile_tags profile_id)
               (JsonTags (profile_tags profile_id)).

Definition endpoint_deleted (port : port) : M unit :=
  let key := port_etcd_key port in
  r ← attempt (client_delete key);
  match r with
  | Ok _ => mret tt
  | Raise EtcdKeyNotFound => mret tt
  | Raise e => raise e
  end.

(** [for x in l: body(x)] *)
Fixpoint for_each {A : Type} (l : list A) (body : A → M unit) : M unit :=
  match l with
  | [] => mret tt
  | x :: l' => _ ← body x; for_each l' body
  end.

(** The profiles that incorporate group [sgid], collected in the loop over
    [self.needed_profiles]. *)
Definition collect_profiles (sgid : string) (needed : gset string)
    : gset string :=
  foldl (λ profiles_to_rewrite profile_id,
           if bool_decide (sgid ∈ profile_tags profile_id)
           then profiles_to_rewrite ∪ {[profile_id]}
           else profiles_to_rewrite)
        ∅ (set_order needed).

Definition security_group_updated (sg : security_group) : M unit :=
  _ ← with_lock _sgs_semaphore SgsLock
        (c ← get_attr sgs; set_sgs c (sg_id sg) sg);
  profiles_to_rewrite ← with_lock profile_semaphore ProfileLock
        (needed ← get_attr needed_profiles;
         mret (collect_profiles (sg_id sg) needed));
  for_each (set_order profiles_to_rewrite) write_profile_to_etcd.

Definition provide_felix_config : M unit :=
  let iface_pfx_key := key_for_config "InterfacePrefix" in
  r ← attempt (client_read iface_pfx_key);
  pr ← match r with
       | Ok prefix =>
           r' ← attempt (client_read READY_KEY);
           match r' with
           | Ok ready => mret (Some prefix, Some ready)
           | Raise EtcdKeyNotFound => mret (Some prefix, None)
           | Raise e => raise e
           end
       | Raise EtcdKeyNotFound => mret (None, None)
       | Raise e => raise e
       end;
  _ ← (if negb (value_is pr.1 "tap")
       then client_write iface_pfx_key (Plain "tap") else mret tt);
  if negb (value_is pr.2 "true")
  then client_write READY_KEY (Plain "true") else mret tt.

(** [self.write_port_to_etcd]: the class defines no method of this name and
    no statement assigns the attribute, so that the lookup raises. *)
Definition write_port_to_etcd (port : port) : M unit := raise AttributeError.

Definition endpoint_created (port : port) (profile : string) : M unit :=
  _ ← write_port_to_etcd port;
  write_profile_to_etcd profile.

Definition endpoint_updated (port : port) (profile : string) : M unit :=
  endpoint_created port profile.

Definition PERIODIC_RESYNC_INTERVAL_SECS : nat := 30.

(** One turn of the [while True] loop of [periodic_resync_thread]: the bare
    [except] swallows whatever the three steps raise. *)
Definition resync_cycle : M unit :=
  _ ← attempt (_ ← provide_felix_config;
               _ ← resync_endpoints;
               resync_security_groups);
  sleep (PERIODIC_RESYNC_INTERVAL_SECS * 1000).

(** The first [cycles] turns of [periodic_resync_thread]. *)
Fixpoint periodic_resync_thread (cycles : nat) : M unit :=
  match cycles with
  | 0 => mret tt
  | S cycles' => _ ← resync_cycle; periodic_resync_thread cycles'
  end.

End Transport.

(** ** Vocabulary of the properties *)

Definition valid_ethertype (r : neutron_rule) : Prop :=
  ethertype r = PyStr "IPv4" ∨ ethertype r = PyStr "IPv6".

Definition ingress (r : neutron_rule) : bool :=
  py_eq (direction r) (PyStr "ingress").

(** The fields of the side that the direction selects. *)
Definition tag_key (r : neutron_rule) : string :=
  if ingress r then "src_tag" else "dst_tag".

Definition net_key (r : neutron_rule) : string :=
  if ingress r then "src_net" else "dst_net".

(** The 'any address' CIDR of the rule's family. *)
Definition any_address (r : neutron_rule) : pyval :=
  if py_eq (ethertype r) (PyStr "IPv4") then PyStr "0.0.0.0/0" else PyStr "::/0".

(** The value of [net] after the 'any address' substitution. *)
Definition resolved_net (r : neutron_rule) : pyval :=
  if truthy (py_or (remote_ip_prefix r) (remote_group_id r))
  then remote_ip_prefix r else any_address r.

(** The fields that the translation sets before the final assembly. *)
Definition early_key (k : string) : Prop :=
  k = "ip_version" ∨ k = "protocol" ∨ k = "icmp_type" ∨ k = "icmp_code".

(** A remote selector as Neutron hands it over: absent, or a non-empty
    string. *)
Definition selector_ok (v : pyval) : Prop :=
  v = PyNone ∨ ∃ s, v = PyStr s ∧ s ≠ "".

(** The statement that tag and net are never both set on the side that the
    direction selects. *)
Definition tag_net_exclusive (r : neutron_rule) : Prop :=
  ∀ d, _neutron_rule_to_etcd_rule r = Ok d →
       ¬ (is_Some (d !! tag_key r) ∧ is_Some (d !! net_key r)).

Definition any_ipv4_ingress : neutron_rule :=
  {| direction := PyStr "ingress"; ethertype := PyStr "IPv4";
     protocol := PyNone; remote_group_id := PyNone;
     remote_ip_prefix := PyNone;
     port_range_min := PyNone; port_range_max := PyNone |}.

Definition icmp6_ingress : neutron_rule :=
  {| direction := PyStr "ingress"; ethertype := PyStr "IPv6";
     protocol := PyStr "icmp"; remote_group_id := PyNone;
     remote_ip_prefix := PyNone;
     port_range_min := PyInt 3; port_range_max := PyInt 4 |}.

Definition group_and_prefix_ingress : neutron_rule :=
  {| direction := PyStr "ingress"; ethertype := PyStr "IPv4";
     protocol := PyStr "tcp"; remote_group_id := PyStr "sg1";
     remote_ip_prefix := PyStr "10.0.0.0/8";
     port_range_min := PyInt 80; port_range_max := PyInt 80 |}.

Definition tcp_range_egress : neutron_rule :=
  {| direction := PyStr "egress"; ethertype := PyStr "IPv6";
     protocol := PyStr "tcp"; remote_group_id := PyNone;
     remote_ip_prefix := PyStr "2001:db8::/32";
     port_range_min := PyInt 8000; port_range_max := PyInt 8080 |}.


(** A port with the given security groups, for examples. *)
Definition example_port (groups : list string) : port :=
  {| binding_host_id := "host1"; device_id := "vm1"; port_id := "port1";
     admin_state_up := true; interface_name := PyStr "tap1234";
     mac_address := PyStr "fa:16:3e:00:00:01";
     fixed_ips := [ {| ip_address := "10.65.0.2"; gateway := PyStr "10.65.0.1" |};
                    {| ip_address := "2001:db8::2"; gateway := PyNone |} ];
     security_groups := groups |}.

(** The group identifier does not contain the separator. *)
Definition no_underscore (s : string) : Prop :=
  contains_char underscore s = false.

(** ** Vocabulary of the stateful properties *)

(** The store writes among the events, oldest first. *)
Definition writes (tr : list event) : list (string * etcd_value) :=
  omap (λ e, match e with EvWrite k v => Some (k, v) | _ => None end) tr.

(** What one locked read of the cache finds for group [sgid]. *)
Definition cache_lookup (t : transport) (sgid : string)
    : result (list neutron_rule) :=
  match _sgs_semaphore t, sgs t with
  | Some _, Some c =>
      match c !! sgid with
      | Some sg => Ok (security_group_rules sg)
      | None => Raise KeyError
      end
  | _, _ => Raise AttributeError
  end.

(** The world after one locked read of the cache. *)
Definition after_attempt (w : world) : world :=
  {| self := self w; etcd := etcd w;
     trace := trace w ++ [EvAcquire SgsLock; EvRelease SgsLock];
     yields := yields w |}.

(** The world after one failed read of the cache and the 200 ms sleep that
    follows it. *)
Definition fail_once (interference : nat → transport → transport)
    (w : world) : world :=
  {| self := interference (yields w) (self w); etcd := etcd w;
     trace := trace w ++ [EvAcquire SgsLock; EvRelease SgsLock; EvSleep 200];
     yields := S (yields w) |}.

(** The rules document of the groups [sgids], built from the cache [c]
    alone. *)
Fixpoint build_rules (c : gmap string security_group) (sgids : list string)
    (inbound outbound : list (gmap string jval)) : result profile_rules_doc :=
  match sgids with
  | [] => Ok {| inbound_rules := inbound; outbound_rules := outbound |}
  | sgid :: sgids' =>
      match c !! sgid with
      | None => Raise KeyError
      | Some sg =>
          io ← translate_rules (security_group_rules sg) inbound outbound;
          build_rules c sgids' io.1 io.2
      end
  end.


(** ** Examples *)

(** The key layout of [calico.datamodel_v1], for the examples. *)
Definition example_READY_KEY : string := "/calico/v1/Ready".

Definition example_key_for_config (name : string) : string :=
  "/calico/v1/config/" +:+ name.

Definition example_key_for_endpoint (host orchestrator workload endpoint
    : string) : string :=
  "/calico/v1/host/" +:+ host +:+ "/workload/" +:+ orchestrator +:+ "/" +:+
  workload +:+ "/endpoint/" +:+ endpoint.

Definition example_key_for_profile_rules (profile_id : string) : string :=
  "/calico/v1/policy/profile/" +:+ profile_id +:+ "/rules".

Definition example_key_for_profile_tags (profile_id : string) : string :=
  "/calico/v1/policy/profile/" +:+ profile_id +:+ "/tags".

(** An order of iteration, for the examples. *)
Definition example_set_order : gset string → list string := elements.

(** No other green thread touches the object. *)
Definition no_interference : nat → transport → transport := λ _ t, t.

Definition sg_a : security_group :=
  {| sg_id := "a"; security_group_rules := [any_ipv4_ingress; tcp_range_egress] |}.


(** An instance whose attributes were assigned from outside. *)
Definition transport_with (c : gmap string security_group)
    (needed : gset string) : transport :=
  {| driver := 0;
     _sgs_semaphore := Some Semaphore;
     sgs := Some c;
     profile_semaphore := Some Semaphore;
     needed_profiles := Some needed |}.

Definition world_of (t : transport) (store : gmap string etcd_value) : world :=
  {| self := t; etcd := store; trace := []; yields := 0 |}.

(** Another green thread caches group [a] during the third sleep. *)
Definition a_arrives_late : nat → transport → transport := λ n t,
  if bool_decide (n = 2) then
    {| driver := driver t; _sgs_semaphore := _sgs_semaphore t;
       sgs := (λ c, <["a" := sg_a]> c) <$> sgs t;
       profile_semaphore := profile_semaphore t;
       needed_profiles := needed_profiles t |}
  else t.

(** A store in which the configuration is already as required. *)
Definition configured_store : gmap string etcd_value :=
  <[example_key_for_config "InterfacePrefix" := Plain "tap"]>
  (<[example_READY_KEY := Plain "true"]> ∅).

(** ** Vocabulary of the further properties *)

(** The keys that a translated rule can hold. *)
Definition rule_keys : list string :=
  ["ip_version"; "protocol"; "icmp_type"; "icmp_code"; "src_tag"; "src_net";
   "dst_tag"; "dst_net"; "dst_ports"].

(** A value that the ICMP branch keeps: neither [None] nor -1. *)
Definition specific (v : pyval) : Prop := v ≠ PyNone ∧ v ≠ PyInt (-1).

(** The translations of a list of rules, in order. *)
Fixpoint translate_all (rules : list neutron_rule)
    : result (list (gmap string jval)) :=
  match rules with
  | [] => Ok []
  | rule :: rules' =>
      etcd_rule ← _neutron_rule_to_etcd_rule rule;
      etcd_rules ← translate_all rules';
      Ok (etcd_rule :: etcd_rules)
  end.

(** The rules of the groups [sgids] in the cache [c], group after group. *)
Fixpoint cached_rules (c : gmap string security_group) (sgids : list string)
    : option (list neutron_rule) :=
  match sgids with
  | [] => Some []
  | sgid :: sgids' =>
      sg ← c !! sgid;
      rules ← cached_rules c sgids';
      Some (security_group_rules sg ++ rules)
  end.

(** The number of occurrences of [c] in [s]. *)
Fixpoint count_char (c : ascii) (s : string) : nat :=
  match s with
  | EmptyString => 0
  | String c' s' => (if Ascii.eqb c' c then 1 else 0) + count_char c s'
  end.

(** The address is an IPv6 one, by the test of [port_etcd_data]. *)
Definition is_ipv6 (ip : fixed_ip) : bool := contains_char ":" (ip_address ip).

(** The addresses of one family, in the order of [fixed_ips], with the
    prefix length appended. *)
Definition nets_of (v6 : bool) (ips : list fixed_ip) : list pyval :=
  (λ ip, PyStr (ip_address ip +:+ (if v6 then "/128" else "/32")))
    <$> List.filter (λ ip, eqb (is_ipv6 ip) v6) ips.

(** The gateways of one family that are not [None], in the order of
    [fixed_ips]. *)
Definition gateways_of (v6 : bool) (ips : list fixed_ip) : list pyval :=
  List.filter (λ g, negb (is_none g))
    (gateway <$> List.filter (λ ip, eqb (is_ipv6 ip) v6) ips).

(** The gateway that an endpoint document shows for a family: the last one
    of the family in [fixed_ips] that is not [None], or what was there
    before. *)
Definition shown_gateway (v6 : bool) (ips : list fixed_ip)
    (before : option jval) : option jval :=
  match last (gateways_of v6 ips) with
  | Some g => Some (JAtom g)
  | None => before
  end.

(** The keys of an endpoint document. *)
Definition endpoint_keys : list string :=
  ["state"; "name"; "mac"; "profile_id"; "ipv4_gateway"; "ipv6_gateway";
   "ipv4_nets"; "ipv6_nets"].

#[global] Instance lock_eq_dec : EqDecision lock.
Proof. solve_decision. Defined.

(** The locks held after the events [tr] when [held] were held before, the
    last acquired first; [None] when the events break the discipline: a lock
    is taken while another one is held, a lock is released that is not
    held, the cache is written without the cache lock, or the thread sleeps
    or calls the store while it holds a lock. *)
Fixpoint locks_after (held : list lock) (tr : list event)
    : option (list lock) :=
  match tr with
  | [] => Some held
  | EvAcquire l :: tr' =>
      match held with
      | [] => locks_after [l] tr'
      | _ :: _ => None
      end
  | EvRelease l :: tr' =>
      match held with
      | l' :: held' =>
          if bool_decide (l = l') then locks_after held' tr' else None
      | [] => None
      end
  | EvCacheSet _ :: tr' =>
      if bool_decide (SgsLock ∈ held) then locks_after held tr' else None
  | (EvSleep _ | EvRead _ | EvWrite _ _ | EvDelete _) :: tr' =>
      match held with
      | [] => locks_after [] tr'
      | _ :: _ => None
      end
  end.

(** Events that consist of locked reads of the cache and of the sleeps of
    the retry loop only: each acquisition of the cache lock is directly
    followed by its release. *)
Inductive locked_reads : list event → Prop :=
  | locked_reads_nil : locked_reads []
  | locked_reads_read tr :
      locked_reads tr →
      locked_reads (EvAcquire SgsLock :: EvRelease SgsLock :: tr)
  | locked_reads_sleep tr :
      locked_reads tr → locked_reads (EvSleep 200 :: tr).

(** The number of times a lock is taken. *)
Definition acquisitions (tr : list event) : nat :=
  length (List.filter (λ e, match e with EvAcquire _ => true | _ => false end)
            tr).

(** From [w] to [w'] the thread appended locked reads and sleeps only. *)
Definition reads_only (w w' : world) : Prop :=
  ∃ rest, trace w' = trace w ++ rest ∧ locked_reads rest.


(** From [w] to [w'] the thread appended events that keep the discipline
    when the locks [held] are held, and that leave the same locks held. *)
Definition disciplined_under (held : list lock) (w w' : world) : Prop :=
  ∃ rest, trace w' = trace w ++ rest ∧ locks_after held rest = Some held.

(** The same for a thread that holds no lock. *)
Definition disciplined : relation world := disciplined_under [].

(** The calls to the store among the events. *)
Definition store_calls (tr : list event) : list event :=
  List.filter (λ e, match e with
                    | EvRead _ | EvWrite _ _ | EvDelete _ => true
                    | _ => false
                    end) tr.

(** From [w] to [w'] the store was neither called nor changed. *)
Definition store_untouched (w w' : world) : Prop :=
  etcd w' = etcd w ∧ store_calls (trace w') = store_calls (trace w).

(** Every run of [m] relates the world before to the world after by [R]. *)
Definition preserves {A : Type} (R : relation world) (m : M A) : Prop :=
  ∀ w, R w (m w).2.

(** From [w] to [w'] the thread did not sleep. *)
Definition same_yields (w w' : world) : Prop := yields w' = yields w.

(** The number of sleeps from [w] to [w'] is at most [n]. *)
Definition sleeps_at_most (n : nat) (w w' : world) : Prop :=
  (yields w ≤ yields w' ∧ yields w' ≤ yields w + n)%nat.
(** ** Rule translation: properties *)

Lemma lookup_set_if_some_ne k k' o (d : gmap string jval) :
  k ≠ k' → set_if_some k o d !! k' = d !! k'.
Proof. intros Hne. destruct o; simpl; [by rewrite lookup_insert_ne|done]. Qed.

Lemma lookup_set_if_some_eq k o (d : gmap string jval) :
  set_if_some k o d !! k = match o with Some v => Some v | None => d !! k end.
Proof. destruct o; simpl; [by rewrite lookup_insert_eq|done]. Qed.

Lemma py_eq_true a b : py_eq a b = true ↔ a = b.
Proof. unfold py_eq. apply bool_decide_eq_true. Qed.

Lemma py_eq_false a b : py_eq a b = false ↔ a ≠ b.
Proof. unfold py_eq. apply bool_decide_eq_false. Qed.

(** C1: the ingress rule with ethertype IPv4 and every other field [None]
    translates to exactly [{ip_version: 4, src_net: "0.0.0.0/0"}]; no other
    field is present. *)
Theorem any_ipv4_ingress_translation :
  _neutron_rule_to_etcd_rule any_ipv4_ingress =
    Ok (<["ip_version" := JAtom (PyInt 4)]>
        (<["src_net" := JAtom (PyStr "0.0.0.0/0")]> ∅))
  ∧ ∀ d, _neutron_rule_to_etcd_rule any_ipv4_ingress = Ok d →
         ∀ k, is_Some (d !! k) → k = "ip_version" ∨ k = "src_net".
Proof.
  assert (Heq : _neutron_rule_to_etcd_rule any_ipv4_ingress =
    Ok (<["ip_version" := JAtom (PyInt 4)]>
        (<["src_net" := JAtom (PyStr "0.0.0.0/0")]> ∅))).
  { vm_compute. reflexivity. }
  split; [exact Heq|].
  intros d Hd k [v Hv]. rewrite Heq in Hd. injection Hd as <-.
  destruct (decide (k = "ip_version")) as [->|Hk1]; [by left|].
  destruct (decide (k = "src_net")) as [->|Hk2]; [by right|].
  rewrite !lookup_insert_ne, lookup_empty in Hv by done. discriminate.
Qed.

Lemma ethertype_getitem {V : Type} (a b : V) (r : neutron_rule) :
  valid_ethertype r →
  dict_getitem [(PyStr "IPv4", a); (PyStr "IPv6", b)] (ethertype r) =
    Ok (if py_eq (ethertype r) (PyStr "IPv4") then a else b).
Proof. intros [-> | ->]; reflexivity. Qed.

(** The result of the translation, as the final assembly builds it. *)
Lemma translation_shape (r : neutron_rule) :
  valid_ethertype r →
  ∃ d0 : gmap string jval,
    (∀ k, ¬ early_key k → d0 !! k = None) ∧
    _neutron_rule_to_etcd_rule r =
      Ok (set_if_some "dst_ports"
            (if py_eq (protocol r) (PyStr "icmp") then None
             else port_spec_of (port_range_min r) (port_range_max r))
         (set_if_some (net_key r) (not_none (resolved_net r))
         (set_if_some (tag_key r) (not_none (remote_group_id r)) d0))).
Proof.
  intros Hv. unfold _neutron_rule_to_etcd_rule.
  rewrite !(ethertype_getitem _ _ r Hv).
  unfold resolved_net, any_address, tag_key, net_key, ingress.
  assert (Hearly : ∀ (d : gmap string jval) k v,
            early_key k → (∀ k', ¬ early_key k' → d !! k' = None) →
            ∀ k', ¬ early_key k' → <[k := v]> d !! k' = None).
  { intros d k v Hk Hd k' Hk'. rewrite lookup_insert_ne; [by apply Hd|].
    intros ->. by apply Hk'. }
  assert (Hearly' : ∀ (d : gmap string jval) k o,
            early_key k → (∀ k', ¬ early_key k' → d !! k' = None) →
            ∀ k', ¬ early_key k' → set_if_some k o d !! k' = None).
  { intros d k [v|] Hk Hd; simpl; [by apply Hearly|done]. }
  assert (H0 : ∀ v k', ¬ early_key k' →
            (<["ip_version" := v]> (∅ : gmap string jval)) !! k' = None).
  { intros v. apply Hearly; [by left|]. intros; apply lookup_empty. }
  simpl.
  destruct (is_none (protocol r) || py_eq (protocol r) (PyInt (-1))) eqn:Hp1;
    simpl.
  - destruct (py_eq (protocol r) (PyStr "icmp")) eqn:Hicmp;
      destruct (truthy (py_or (remote_ip_prefix r) (remote_group_id r)));
      destruct (py_eq (direction r) (PyStr "ingress")); simpl;
      eexists; (split; [|reflexivity]);
      repeat (apply Hearly'; [unfold early_key; tauto|]); apply H0.
  - destruct (py_eq (protocol r) (PyStr "icmp")) eqn:Hicmp;
      destruct (truthy (py_or (remote_ip_prefix r) (remote_group_id r)));
      destruct (py_eq (direction r) (PyStr "ingress")); simpl;
      eexists; (split; [|reflexivity]);
      repeat (apply Hearly'; [unfold early_key; tauto|]);
      try (apply Hearly; [unfold early_key; tauto|]); apply H0.
Qed.

(** C2 (as stated): the ICMP IPv6 ingress rule with type 3 and code 4 and no
    remote selector does not translate to the four-field dictionary; the
    'any address' net is set as well. *)
Lemma icmp6_ingress_not_four_fields :
  _neutron_rule_to_etcd_rule icmp6_ingress ≠
    Ok (<["ip_version" := JAtom (PyInt 6)]>
        (<["protocol" := JAtom (PyStr "icmpv6")]>
        (<["icmp_type" := JAtom (PyInt 3)]>
        (<["icmp_code" := JAtom (PyInt 4)]> ∅)))).
Proof.
  intros H.
  assert (Hl : ∀ d, _neutron_rule_to_etcd_rule icmp6_ingress = Ok d →
               d !! "src_net" = Some (JAtom (PyStr "::/0"))).
  { intros d. vm_compute. intros [= <-]. reflexivity. }
  specialize (Hl _ H). vm_compute in Hl. discriminate.
Qed.

(** C2 (amended): the ICMP IPv6 ingress rule with type 3 and code 4 and no
    remote selector translates to exactly [{ip_version: 6, protocol:
    "icmpv6", icmp_type: 3, icmp_code: 4, src_net: "::/0"}]. *)
Theorem icmp6_ingress_translation :
  _neutron_rule_to_etcd_rule icmp6_ingress =
    Ok (<["ip_version" := JAtom (PyInt 6)]>
        (<["protocol" := JAtom (PyStr "icmpv6")]>
        (<["icmp_type" := JAtom (PyInt 3)]>
        (<["icmp_code" := JAtom (PyInt 4)]>
        (<["src_net" := JAtom (PyStr "::/0")]> ∅))))).
Proof. vm_compute. reflexivity. Qed.

(** C3 (as stated): with both a peer group and a prefix supplied, the tag
    and the net field are both set. *)
Lemma group_and_prefix_sets_both :
  ¬ tag_net_exclusive group_and_prefix_ingress.
Proof.
  intros H.
  apply (H (<["ip_version" := JAtom (PyInt 4)]>
           (<["protocol" := JAtom (PyStr "tcp")]>
           (<["src_tag" := JAtom (PyStr "sg1")]>
           (<["src_net" := JAtom (PyStr "10.0.0.0/8")]>
           (<["dst_ports" := JList [PyInt 80]]> ∅)))))).
  - vm_compute. reflexivity.
  - split; vm_compute; eauto.
Qed.

Lemma not_none_Some v : v ≠ PyNone → not_none v = Some (JAtom v).
Proof. by destruct v. Qed.

Lemma tag_net_keys_distinct r :
  tag_key r ≠ net_key r ∧ tag_key r ≠ "dst_ports" ∧ net_key r ≠ "dst_ports"
  ∧ ¬ early_key (tag_key r) ∧ ¬ early_key (net_key r).
Proof.
  unfold tag_key, net_key, early_key.
  destruct (ingress r); repeat split; try discriminate;
    intros [H | [H | [H | H]]]; discriminate.
Qed.

(** C3 (amended): for a rule with ethertype IPv4 or IPv6 whose group id and
    prefix are each absent or a non-empty string, the tag field of the
    direction's side holds the group id exactly when one is supplied, and
    the net field holds the prefix when one is supplied, the family's
    'any address' CIDR when neither a group nor a prefix is supplied, and is
    absent when only a group is supplied.  So the two fields are both set
    exactly when both selectors are supplied, and exactly one of them is set
    otherwise. *)
Theorem selector_fields (r : neutron_rule) :
  valid_ethertype r →
  selector_ok (remote_group_id r) →
  selector_ok (remote_ip_prefix r) →
  ∃ d, _neutron_rule_to_etcd_rule r = Ok d ∧
    (remote_group_id r = PyNone → remote_ip_prefix r = PyNone →
       d !! tag_key r = None ∧ d !! net_key r = Some (JAtom (any_address r))) ∧
    (remote_group_id r ≠ PyNone → remote_ip_prefix r = PyNone →
       d !! tag_key r = Some (JAtom (remote_group_id r)) ∧
       d !! net_key r = None) ∧
    (remote_group_id r = PyNone → remote_ip_prefix r ≠ PyNone →
       d !! tag_key r = None ∧
       d !! net_key r = Some (JAtom (remote_ip_prefix r))) ∧
    (remote_group_id r ≠ PyNone → remote_ip_prefix r ≠ PyNone →
       d !! tag_key r = Some (JAtom (remote_group_id r)) ∧
       d !! net_key r = Some (JAtom (remote_ip_prefix r))).
Proof.
  intros Hv Hg Hp.
  destruct (translation_shape r Hv) as (d0 & Hd0 & ->).
  destruct (tag_net_keys_distinct r) as (Htn & Htp & Hnp & Ht & Hn).
  eexists; split; [reflexivity|].
  rewrite (lookup_set_if_some_ne "dst_ports" (tag_key r)) by done.
  rewrite (lookup_set_if_some_ne "dst_ports" (net_key r)) by done.
  rewrite (lookup_set_if_some_ne (net_key r) (tag_key r)) by done.
  rewrite !lookup_set_if_some_eq.
  rewrite (lookup_set_if_some_ne (tag_key r) (net_key r)) by done.
  rewrite !Hd0 by done.
  unfold resolved_net, py_or.
  destruct Hg as [Hg | (g & Hg & Hgne)], Hp as [Hp | (p & Hp & Hpne)];
    rewrite Hg, Hp; simpl;
    try (destruct g; [done|]); try (destruct p; [done|]); simpl;
    repeat split; intros; try done.
  unfold any_address, not_none.
  destruct (py_eq (ethertype r) (PyStr "IPv4")); done.
Qed.

(** The theorem [selector_fields] at a rule with only a prefix. *)
Lemma selector_fields_witness :
  ∃ d, _neutron_rule_to_etcd_rule tcp_range_egress = Ok d ∧
       d !! "dst_tag" = None ∧
       d !! "dst_net" = Some (JAtom (PyStr "2001:db8::/32")).
Proof.
  destruct (selector_fields tcp_range_egress) as (d & Hd & _ & _ & H3 & _).
  - right. reflexivity.
  - left. reflexivity.
  - right. eexists. split; [reflexivity|discriminate].
  - exists d. split; [exact Hd|]. apply H3; [reflexivity|discriminate].
Defined.

Lemma src_ports_not_a_field r :
  tag_key r ≠ "src_ports" ∧ net_key r ≠ "src_ports" ∧ ¬ early_key "src_ports".
Proof.
  unfold tag_key, net_key, early_key.
  destruct (ingress r); repeat split; try discriminate;
    intros [H | [H | [H | H]]]; discriminate.
Qed.

(** C6: for a rule whose protocol is not ICMP, a lower bound of -1 gives
    [dst_ports = ["1:65535"]]; otherwise equal bounds that are present give
    the one-element list with that port, two absent bounds leave [dst_ports]
    out, and different bounds give the one range string ["lo:hi"].  The
    ports are in [dst_ports] whatever the direction; there is no
    [src_ports]. *)
Theorem non_icmp_ports (r : neutron_rule) :
  valid_ethertype r →
  protocol r ≠ PyStr "icmp" →
  ∃ d, _neutron_rule_to_etcd_rule r = Ok d ∧
    d !! "src_ports" = None ∧
    (port_range_min r = PyInt (-1) →
       d !! "dst_ports" = Some (JList [PyStr "1:65535"])) ∧
    (port_range_min r ≠ PyInt (-1) →
     port_range_min r = port_range_max r → port_range_min r ≠ PyNone →
       d !! "dst_ports" = Some (JList [port_range_min r])) ∧
    (port_range_min r = PyNone → port_range_max r = PyNone →
       d !! "dst_ports" = None) ∧
    (port_range_min r ≠ PyInt (-1) →
     port_range_min r ≠ port_range_max r →
       d !! "dst_ports" =
         Some (JList [PyStr (py_str (port_range_min r) +:+ ":" +:+
                             py_str (port_range_max r))])).
Proof.
  intros Hv Hproto.
  destruct (translation_shape r Hv) as (d0 & Hd0 & ->).
  destruct (tag_net_keys_distinct r) as (_ & Htp & Hnp & Ht & Hn).
  destruct (src_ports_not_a_field r) as (Hts & Hns & Hes).
  apply py_eq_false in Hproto. rewrite Hproto.
  eexists; split; [reflexivity|].
  rewrite lookup_set_if_some_eq.
  rewrite !lookup_set_if_some_ne by done.
  rewrite !Hd0 by (done || (unfold early_key;
                            intros [H | [H | [H | H]]]; discriminate)).
  unfold port_spec_of.
  split; [done|].
  repeat split.
  - intros ->. reflexivity.
  - intros Hlo Heq Hsome. apply py_eq_false in Hlo. rewrite Hlo.
    apply py_eq_true in Heq. rewrite Heq.
    destruct (port_range_min r); done.
  - intros -> ->. reflexivity.
  - intros Hlo Hne. apply py_eq_false in Hlo, Hne. by rewrite Hlo, Hne.
Qed.

(** The theorem [non_icmp_ports] at an egress rule with a port range. *)
Lemma non_icmp_ports_witness :
  ∃ d, _neutron_rule_to_etcd_rule tcp_range_egress = Ok d ∧
       d !! "dst_ports" = Some (JList [PyStr "8000:8080"]).
Proof.
  destruct (non_icmp_ports tcp_range_egress) as (d & Hd & _ & _ & _ & _ & H4).
  - right. reflexivity.
  - discriminate.
  - exists d. split; [exact Hd|]. apply H4; discriminate.
Defined.

(** ** Profile identifiers *)

Lemma append_nil_r (s : string) : s +:+ "" = s.
Proof.
  induction s as [|c s IH]; [done|].
  change (String c (s +:+ "") = String c s). by f_equal.
Qed.

Lemma append_assoc (s1 s2 s3 : string) :
  (s1 +:+ s2) +:+ s3 = s1 +:+ (s2 +:+ s3).
Proof.
  induction s1 as [|c s1 IH]; [done|].
  change (String c ((s1 +:+ s2) +:+ s3) = String c (s1 +:+ (s2 +:+ s3))).
  by f_equal.
Qed.

(** Splitting runs through a piece without the separator. *)
Lemma split_go_piece sep x : ∀ cur rest,
  contains_char sep x = false →
  split_go sep cur (x +:+ rest) = split_go sep (cur +:+ x) rest.
Proof.
  induction x as [|c x IH]; intros cur rest Hx.
  - by rewrite append_nil_r.
  - simpl in Hx. apply orb_false_elim in Hx as [Hc Hx].
    change (String c x +:+ rest) with (String c (x +:+ rest)).
    change (split_go sep cur (String c (x +:+ rest)))
      with (if Ascii.eqb c sep then cur :: split_go sep "" (x +:+ rest)
            else split_go sep (cur +:+ String c "") (x +:+ rest)).
    rewrite Hc, IH by done. rewrite append_assoc. reflexivity.
Qed.

Lemma split_join (l : list string) :
  l ≠ [] → Forall no_underscore l →
  split underscore (join "_" l) = l.
Proof.
  unfold split. induction l as [|x l IH]; [done|].
  intros _ Hall. apply Forall_cons in Hall as [Hx Hl].
  destruct l as [|y l].
  - simpl. rewrite <- (append_nil_r x) at 1.
    by rewrite split_go_piece.
  - change (join "_" (x :: y :: l)) with (x +:+ "_" +:+ join "_" (y :: l)).
    rewrite split_go_piece by done. simpl. f_equal. by apply IH.
Qed.

Lemma split_go_nonempty sep s : ∀ cur, split_go sep cur s ≠ [].
Proof.
  induction s as [|c s IH]; intros cur; simpl; [done|].
  destruct (Ascii.eqb c sep); [done|apply IH].
Qed.

Lemma join_cons sep x l :
  l ≠ [] → join sep (x :: l) = x +:+ sep +:+ join sep l.
Proof. by destruct l. Qed.

Lemma join_split_go s : ∀ cur,
  join "_" (split_go underscore cur s) = cur +:+ s.
Proof.
  induction s as [|c s IH]; intros cur.
  - by rewrite append_nil_r.
  - change (split_go underscore cur (String c s))
      with (if Ascii.eqb c underscore
            then cur :: split_go underscore "" s
            else split_go underscore (cur +:+ String c "") s).
    destruct (Ascii.eqb c underscore) eqn:Hc.
    + apply Ascii.eqb_eq in Hc as ->.
      rewrite join_cons by apply split_go_nonempty.
      by rewrite IH.
    + rewrite IH. by rewrite append_assoc.
Qed.

(** C5 (as stated): the round trip fails for a port without security
    groups, and for a group identifier that contains the separator. *)
Lemma profile_tags_round_trip_fails :
  profile_tags (port_profile_id (example_port [])) ≠
    security_groups (example_port [])
  ∧ profile_tags (port_profile_id (example_port ["a_b"])) ≠
    security_groups (example_port ["a_b"]).
Proof. split; vm_compute; discriminate. Qed.

(** C5 (amended): for a port with at least one security group, none of
    whose identifiers contains an underscore, [profile_tags] recovers the
    ordered list of groups from [port_profile_id]; and joining the tags of
    any profile identifier gives the identifier back. *)
Theorem profile_tags_round_trip (p : port) :
  security_groups p ≠ [] →
  Forall no_underscore (security_groups p) →
  profile_tags (port_profile_id p) = security_groups p
  ∧ ∀ profile_id, join "_" (profile_tags profile_id) = profile_id.
Proof.
  intros Hne Hall. split.
  - by apply split_join.
  - intros s. unfold profile_tags, split. apply join_split_go.
Qed.

(** The theorem [profile_tags_round_trip] at a port with two groups. *)
Lemma profile_tags_round_trip_witness :
  profile_tags (port_profile_id (example_port ["sg-1"; "sg-2"])) =
    ["sg-1"; "sg-2"].
Proof.
  apply (profile_tags_round_trip (example_port ["sg-1"; "sg-2"])).
  - discriminate.
  - repeat constructor.
Defined.

(** ** The bounded wait for a security group *)

Ltac unfold_M :=
  unfold mbind, M_bind, mret, M_ret, get_attr, emit, attempt, lift, raise.

Lemma world_eq (w1 w2 : world) :
  self w1 = self w2 → etcd w1 = etcd w2 → trace w1 = trace w2 →
  yields w1 = yields w2 → w1 = w2.
Proof. destruct w1, w2; simpl; intros; by subst. Qed.

(** One locked read of the cache, by what the cache holds. *)
Lemma read_rules_outcome (sgid : string) (w : world) :
  cache_lookup (self w) sgid ≠ Raise AttributeError →
  read_rules sgid w = (cache_lookup (self w) sgid, after_attempt w).
Proof.
  unfold read_rules, with_lock, cache_lookup, after_attempt. unfold_M.
  destruct (_sgs_semaphore (self w)) as [sem|]; simpl; [|done].
  destruct (sgs (self w)) as [c|]; simpl; [|done].
  intros _.
  destruct (c !! sgid) as [sg|]; simpl; f_equal;
    apply world_eq; simpl; try done; by rewrite <- app_assoc.
Qed.

Lemma read_rules_no_semaphore (sgid : string) (w : world) :
  _sgs_semaphore (self w) = None →
  read_rules sgid w = (Raise AttributeError, w).
Proof.
  intros H. unfold read_rules, with_lock. unfold_M. by rewrite H.
Qed.

Section Wait.

Variable interference : nat → transport → transport.

Lemma wait_found (r : nat) (sgid : string) (w : world) rules :
  cache_lookup (self w) sgid = Ok rules →
  wait_for_rules interference (S r) sgid w = (Ok rules, after_attempt w).
Proof.
  intros H. simpl. unfold_M.
  rewrite read_rules_outcome by (rewrite H; discriminate).
  by rewrite H.
Qed.

Lemma wait_retry (r : nat) (sgid : string) (w : world) :
  cache_lookup (self w) sgid = Raise KeyError →
  wait_for_rules interference (S (S r)) sgid w =
    wait_for_rules interference (S r) sgid (fail_once interference w).
Proof.
  intros H.
  change (wait_for_rules interference (S (S r)) sgid w)
    with ((r' ← attempt (read_rules sgid);
           match r' with
           | Ok rules => mret rules
           | Raise KeyError =>
               if bool_decide (S r = 0) then raise KeyError
               else _ ← sleep interference 200;
                    wait_for_rules interference (S r) sgid
           | Raise e => raise e
           end) w).
  unfold_M.
  rewrite read_rules_outcome by (rewrite H; discriminate).
  rewrite H. simpl. unfold sleep. f_equal.
  apply world_eq; simpl; try done. by rewrite <- app_assoc.
Qed.

Lemma wait_give_up (sgid : string) (w : world) :
  cache_lookup (self w) sgid = Raise KeyError →
  wait_for_rules interference 1 sgid w = (Raise KeyError, after_attempt w).
Proof.
  intros H. simpl. unfold_M.
  rewrite read_rules_outcome by (rewrite H; discriminate).
  by rewrite H.
Qed.

(** After [k] failed reads the loop stands at the world [k] sleeps later,
    with [k] fewer retries left. *)
Lemma wait_after_failures (sgid : string) (k : nat) : ∀ (r : nat) (w : world),
  (∀ j, j < k →
     cache_lookup (self (Nat.iter j (fail_once interference) w)) sgid =
       Raise KeyError) →
  wait_for_rules interference (S (k + r)) sgid w =
    wait_for_rules interference (S r) sgid
                   (Nat.iter k (fail_once interference) w).
Proof.
  induction k as [|k IH]; intros r w Hfail; [done|].
  change (S (S k + r)) with (S (S (k + r))).
  rewrite wait_retry by (apply (Hfail 0); lia).
  rewrite IH.
  - by rewrite Nat.iter_succ_r.
  - intros j Hj. rewrite <- Nat.iter_succ_r. apply Hfail. lia.
Qed.

(** The events of [k] failed reads, each followed by its sleep. *)
Lemma trace_after_failures (k : nat) : ∀ (w : world),
  trace (Nat.iter k (fail_once interference) w) =
    trace w ++ concat (replicate k [EvAcquire SgsLock; EvRelease SgsLock;
                                    EvSleep 200]).
Proof.
  induction k as [|k IH]; intros w.
  - simpl. by rewrite app_nil_r.
  - rewrite Nat.iter_succ_r, IH. simpl. by rewrite <- !app_assoc.
Qed.

Lemma yields_after_failures (k : nat) : ∀ (w : world),
  yields (Nat.iter k (fail_once interference) w) = k + yields w.
Proof.
  induction k as [|k IH]; intros w; [done|].
  rewrite Nat.iter_succ_r, IH. simpl. lia.
Qed.

End Wait.

Lemma profile_rules_from_cons interference sgid rest inb outb (w : world) :
  profile_rules_from interference (sgid :: rest) inb outb w =
    match wait_for_rules interference 20 sgid w with
    | (Ok rules, w') =>
        (io ← lift (translate_rules rules inb outb);
         profile_rules_from interference rest io.1 io.2) w'
    | (Raise e, w') => (Raise e, w')
    end.
Proof. reflexivity. Qed.

(** C4: when the loop of [profile_rules] comes to group [sgid] and the
    first [k] reads of the cache (k < 20) miss it, each miss is followed by
    a sleep of 200 ms.  If the next read finds the group, the build goes on
    with the group's rules, and a profile of that one group is returned; if
    the 20th read misses it as well, [KeyError] is raised to the caller
    after 20 reads and 19 sleeps, and no document is returned. *)
Theorem profile_rules_retry interference sgid rest inb outb (w : world) k :
  k < 20 →
  (∀ j, j < k →
     cache_lookup (self (Nat.iter j (fail_once interference) w)) sgid =
       Raise KeyError) →
  let wk := Nat.iter k (fail_once interference) w in
  trace (after_attempt wk) =
    trace w ++ concat (replicate k [EvAcquire SgsLock; EvRelease SgsLock;
                                    EvSleep 200])
            ++ [EvAcquire SgsLock; EvRelease SgsLock]
  ∧ (∀ rules, cache_lookup (self wk) sgid = Ok rules →
       profile_rules_from interference (sgid :: rest) inb outb w =
         (io ← lift (translate_rules rules inb outb);
          profile_rules_from interference rest io.1 io.2) (after_attempt wk))
  ∧ (∀ rules io, cache_lookup (self wk) sgid = Ok rules →
       translate_rules rules inb outb = Ok io → rest = [] →
       profile_rules_from interference (sgid :: rest) inb outb w =
         (Ok {| inbound_rules := io.1; outbound_rules := io.2 |},
          after_attempt wk))
  ∧ (k = 19 → cache_lookup (self wk) sgid = Raise KeyError →
       profile_rules_from interference (sgid :: rest) inb outb w =
         (Raise KeyError, after_attempt wk)).
Proof.
  intros Hk Hfail wk.
  assert (Hwait : wait_for_rules interference 20 sgid w =
                  wait_for_rules interference (S (19 - k)) sgid wk).
  { replace 20 with (S (k + (19 - k))) by lia.
    by apply wait_after_failures. }
  assert (Hfound : ∀ rules, cache_lookup (self wk) sgid = Ok rules →
       profile_rules_from interference (sgid :: rest) inb outb w =
         (io ← lift (translate_rules rules inb outb);
          profile_rules_from interference rest io.1 io.2) (after_attempt wk)).
  { intros rules Hok. rewrite profile_rules_from_cons, Hwait.
    by rewrite (wait_found _ _ _ _ rules). }
  repeat split.
  - unfold after_attempt; simpl. unfold wk.
    rewrite trace_after_failures. by rewrite <- app_assoc.
  - exact Hfound.
  - intros rules io Hok Hio ->. rewrite (Hfound rules Hok).
    unfold_M. by rewrite Hio.
  - intros -> Hmiss. rewrite profile_rules_from_cons, Hwait.
    change (S (19 - 19)) with 1. by rewrite wait_give_up.
Qed.

(** The theorem [profile_rules_retry] for the profile of the one group [a]:
    when nobody caches the group, the 20th read fails and [KeyError] is
    raised after 19 sleeps; when the group is cached during the third
    sleep, the fourth read finds it and the build returns. *)
Lemma profile_rules_retry_witness :
  (let r := profile_rules no_interference "a"
              (world_of (transport_with ∅ ∅) ∅) in
   r.1 = Raise KeyError ∧ yields r.2 = 19)
  ∧ (let r := profile_rules a_arrives_late "a"
                (world_of (transport_with ∅ ∅) ∅) in
     (∃ doc, r.1 = Ok doc) ∧ yields r.2 = 3).
Proof.
  split.
  - destruct (profile_rules_retry no_interference "a" [] [] []
                (world_of (transport_with ∅ ∅) ∅) 19) as (_ & _ & _ & H).
    + lia.
    + intros j Hj. clear Hj. induction j as [|j IH]; [reflexivity|].
      simpl. exact IH.
    + change (profile_rules no_interference "a"
                (world_of (transport_with ∅ ∅) ∅))
        with (profile_rules_from no_interference ["a"] [] []
                (world_of (transport_with ∅ ∅) ∅)).
      rewrite H; [split; reflexivity|reflexivity|].
      generalize 19. intros n. induction n as [|n IH]; [reflexivity|].
      simpl. exact IH.
  - destruct (profile_rules_retry a_arrives_late "a" [] [] []
                (world_of (transport_with ∅ ∅) ∅) 3) as (_ & _ & H & _).
    + lia.
    + intros j Hj.
      destruct j as [|[|[|j]]]; [reflexivity|reflexivity|reflexivity|lia].
    + change (profile_rules a_arrives_late "a"
                (world_of (transport_with ∅ ∅) ∅))
        with (profile_rules_from a_arrives_late ["a"] [] []
                (world_of (transport_with ∅ ∅) ∅)).
      erewrite H; [split; [eexists; reflexivity|reflexivity]| | |reflexivity].
      * reflexivity.
      * vm_compute. reflexivity.
Defined.

(** ** Endpoints and configuration *)

(** C8: [endpoint_deleted] issues one call to the store, the delete of the
    key that [key_for_endpoint] gives for the port's host, the orchestrator
    "openstack", the port's device and the port's id, and returns normally
    whether or not the key was there; when the store reports that the key
    is not found, nothing in the store changes.  Nothing is written, and no
    other key, the keys of the profile documents included, is deleted or
    changed. *)
Theorem endpoint_deleted_ok key_for_endpoint (port : port) (w : world) :
  let key := key_for_endpoint (binding_host_id port) "openstack"
               (device_id port) (port_id port) in
  let w' := {| self := self w; etcd := delete key (etcd w);
               trace := trace w ++ [EvDelete key]; yields := yields w |} in
  port_etcd_key key_for_endpoint port = key
  ∧ endpoint_deleted key_for_endpoint port w = (Ok tt, w')
  ∧ store_calls (trace w') = store_calls (trace w) ++ [EvDelete key]
  ∧ writes (trace w') = writes (trace w)
  ∧ (∀ k, k ≠ key → etcd w' !! k = etcd w !! k)
  ∧ (∀ (key_for_profile_rules key_for_profile_tags : string → string) pid,
       key_for_profile_rules pid ≠ key → key_for_profile_tags pid ≠ key →
       etcd w' !! key_for_profile_rules pid =
         etcd w !! key_for_profile_rules pid
       ∧ etcd w' !! key_for_profile_tags pid =
           etcd w !! key_for_profile_tags pid)
  ∧ ((client_delete key w).1 = Raise EtcdKeyNotFound → etcd w' = etcd w).
Proof.
  intros key w'. split; [reflexivity|]. repeat split.
  - unfold endpoint_deleted, client_delete, port_etcd_key. unfold_M.
    fold key. destruct (etcd w !! key); reflexivity.
  - unfold store_calls, w'; simpl. by rewrite List.filter_app.
  - unfold writes, w'; simpl. rewrite omap_app. simpl. by rewrite app_nil_r.
  - intros k Hk. unfold w'; simpl. by rewrite lookup_delete_ne.
  - unfold w'; simpl. by rewrite lookup_delete_ne.
  - unfold w'; simpl. by rewrite lookup_delete_ne.
  - unfold client_delete, w'; simpl.
    destruct (etcd w !! key) eqn:Hkey; simpl; [discriminate|].
    intros _. by apply delete_id.
Qed.

(** The theorem [endpoint_deleted_ok] on an empty store: the key is already
    absent, the call returns normally and the store stays empty. *)
Lemma endpoint_deleted_ok_witness :
  (endpoint_deleted example_key_for_endpoint (example_port ["sg-1"])
     (world_of (__init__ 0) ∅)).1 = Ok tt
  ∧ etcd (endpoint_deleted example_key_for_endpoint (example_port ["sg-1"])
            (world_of (__init__ 0) ∅)).2 = ∅.
Proof.
  destruct (endpoint_deleted_ok example_key_for_endpoint
              (example_port ["sg-1"]) (world_of (__init__ 0) ∅))
    as (_ & Hrun & _ & _ & _ & _ & Habsent).
  rewrite Hrun. split; [reflexivity|].
  apply Habsent. reflexivity.
Defined.

(** C9: [port_etcd_data] returns the same document for the same port in
    whatever world it runs, and changes nothing; and when the store holds
    "tap" under the InterfacePrefix key and "true" under the readiness key,
    [provide_felix_config] reads the two keys and writes nothing. *)
Theorem document_and_config_idempotent READY_KEY key_for_config
    (port : port) (w1 w2 w : world) :
  etcd w !! key_for_config "InterfacePrefix" = Some (Plain "tap") →
  etcd w !! READY_KEY = Some (Plain "true") →
  (∃ data, port_etcd_data port w1 = (Ok data, w1)
           ∧ port_etcd_data port w2 = (Ok data, w2))
  ∧ provide_felix_config READY_KEY key_for_config w =
      (Ok tt, {| self := self w; etcd := etcd w;
                 trace := trace w ++ [EvRead (key_for_config "InterfacePrefix");
                                      EvRead READY_KEY];
                 yields := yields w |})
  ∧ writes (trace (provide_felix_config READY_KEY key_for_config w).2) =
      writes (trace w).
Proof.
  intros Hprefix Hready.
  assert (Hrun : provide_felix_config READY_KEY key_for_config w =
      (Ok tt, {| self := self w; etcd := etcd w;
                 trace := trace w ++ [EvRead (key_for_config "InterfacePrefix");
                                      EvRead READY_KEY];
                 yields := yields w |})).
  { unfold provide_felix_config, client_read. unfold_M. simpl.
    rewrite Hprefix. simpl. rewrite Hready. simpl.
    f_equal. apply world_eq; simpl; try done. by rewrite <- app_assoc. }
  repeat split.
  - unfold port_etcd_data. unfold_M.
    destruct (foldl add_fixed_ip _ (fixed_ips port)) as [[data v4] v6].
    eexists. split; reflexivity.
  - exact Hrun.
  - rewrite Hrun. unfold writes; simpl. rewrite omap_app. simpl.
    by rewrite app_nil_r.
Qed.

(** The theorem [document_and_config_idempotent] on a store that is already
    configured. *)
Lemma document_and_config_idempotent_witness :
  writes (trace (provide_felix_config example_READY_KEY example_key_for_config
                   (world_of (__init__ 0) configured_store)).2) = []
  ∧ etcd (provide_felix_config example_READY_KEY example_key_for_config
            (world_of (__init__ 0) configured_store)).2 = configured_store.
Proof.
  destruct (document_and_config_idempotent example_READY_KEY
              example_key_for_config (example_port ["sg-1"])
              (world_of (__init__ 0) ∅) (world_of (__init__ 0) ∅)
              (world_of (__init__ 0) configured_store))
    as (_ & Hrun & Hwrites).
  - vm_compute. reflexivity.
  - vm_compute. reflexivity.
  - split; [exact Hwrites|]. rewrite Hrun. reflexivity.
Defined.

(** ** A freshly constructed instance *)

Lemma provide_felix_config_self READY_KEY key_for_config (w : world) :
  self (provide_felix_config READY_KEY key_for_config w).2 = self w.
Proof.
  unfold provide_felix_config, client_read, client_write, value_is.
  unfold_M. simpl.
  destruct (etcd w !! key_for_config "InterfacePrefix") as [prefix|]; simpl;
    [|reflexivity].
  destruct (etcd w !! READY_KEY) as [ready|]; simpl;
    repeat (case_match; simpl in *; simplify_eq; try reflexivity).
Qed.

Lemma endpoint_deleted_self key_for_endpoint (port : port) (w : world) :
  self (endpoint_deleted key_for_endpoint port w).2 = self w.
Proof.
  unfold endpoint_deleted, client_delete. unfold_M.
  destruct (etcd w !! port_etcd_key key_for_endpoint port); reflexivity.
Qed.

Lemma profile_rules_no_semaphore interference profile_id (w : world) :
  _sgs_semaphore (self w) = None →
  profile_rules interference profile_id w = (Raise AttributeError, w).
Proof.
  intros Hsem. unfold profile_rules, profile_tags, split.
  destruct (split_go underscore "" profile_id) as [|sgid rest] eqn:Htags.
  { by apply split_go_nonempty in Htags. }
  rewrite profile_rules_from_cons. simpl. unfold_M.
  by rewrite read_rules_no_semaphore.
Qed.

(** C10: the constructor leaves [sgs], [_sgs_semaphore], [needed_profiles]
    and [profile_semaphore] unassigned, and the methods that run on a fresh
    instance do not assign them; so on a fresh instance
    [security_group_updated], [profile_rules] and [write_profile_to_etcd]
    raise [AttributeError] and change nothing, for every group and every
    profile identifier. *)
Theorem fresh_instance_attribute_error interference set_order READY_KEY
    key_for_config key_for_endpoint key_for_profile_rules key_for_profile_tags
    (d : nat) (store : gmap string etcd_value) (tr : list event) (y : nat)
    (sg : security_group) (profile_id : string) (port : port) :
  let w := {| self := __init__ d; etcd := store; trace := tr; yields := y |} in
  (_sgs_semaphore (__init__ d) = None ∧ sgs (__init__ d) = None
   ∧ profile_semaphore (__init__ d) = None
   ∧ needed_profiles (__init__ d) = None)
  ∧ security_group_updated interference set_order key_for_profile_rules
      key_for_profile_tags sg w = (Raise AttributeError, w)
  ∧ profile_rules interference profile_id w = (Raise AttributeError, w)
  ∧ write_profile_to_etcd interference key_for_profile_rules
      key_for_profile_tags profile_id w = (Raise AttributeError, w)
  ∧ self (provide_felix_config READY_KEY key_for_config w).2 = __init__ d
  ∧ self (endpoint_deleted key_for_endpoint port w).2 = __init__ d
  ∧ self (resync_endpoints w).2 = __init__ d
  ∧ self (resync_security_groups w).2 = __init__ d.
Proof.
  intros w.
  assert (Hrules : profile_rules interference profile_id w =
                   (Raise AttributeError, w))
    by (by apply profile_rules_no_semaphore).
  repeat split; try done.
  - unfold write_profile_to_etcd. unfold_M. by rewrite Hrules.
  - by rewrite provide_felix_config_self.
  - by rewrite endpoint_deleted_self.
Qed.

(** ** Security group updates *)

Lemma writes_app (tr1 tr2 : list event) :
  writes (tr1 ++ tr2) = writes tr1 ++ writes tr2.
Proof. unfold writes. by rewrite omap_app. Qed.


(** When every group is in the cache, the build takes one locked read per
    group and never sleeps. *)
Lemma profile_rules_from_cached interference c sem :
  ∀ sgids inb outb doc (w : world),
  _sgs_semaphore (self w) = Some sem → sgs (self w) = Some c →
  build_rules c sgids inb outb = Ok doc →
  profile_rules_from interference sgids inb outb w =
    (Ok doc,
     {| self := self w; etcd := etcd w;
        trace := trace w ++ concat (replicate (length sgids)
                                      [EvAcquire SgsLock; EvRelease SgsLock]);
        yields := yields w |}).
Proof.
  induction sgids as [|sgid rest IH]; intros inb outb doc w Hsem Hsgs Hbuild.
  - simpl in Hbuild. injection Hbuild as <-. simpl. unfold_M. f_equal.
    apply world_eq; simpl; try done. by rewrite app_nil_r.
  - simpl in Hbuild.
    destruct (c !! sgid) as [sg|] eqn:Hsg; [|discriminate].
    destruct (translate_rules (security_group_rules sg) inb outb)
      as [io|e] eqn:Hio; [|discriminate].
    simpl in Hbuild.
    rewrite profile_rules_from_cons.
    rewrite (wait_found _ _ _ _ (security_group_rules sg))
      by (unfold cache_lookup; by rewrite Hsem, Hsgs, Hsg).
    unfold mbind at 1. unfold M_bind, lift. rewrite Hio.
    rewrite (IH _ _ doc) by done.
    f_equal. apply world_eq; simpl; try done. by rewrite <- app_assoc.
Qed.





(** ** Rule translation: further properties *)

Lemma ethertype_getitem_error {V : Type} (a b : V) (r : neutron_rule) :
  ¬ valid_ethertype r →
  dict_getitem [(PyStr "IPv4", a); (PyStr "IPv6", b)] (ethertype r) =
    Raise KeyError.
Proof.
  unfold valid_ethertype. intros Hv. simpl.
  rewrite (proj2 (py_eq_false (PyStr "IPv4") (ethertype r)))
    by (intros H; apply Hv; by left).
  rewrite (proj2 (py_eq_false (PyStr "IPv6") (ethertype r)))
    by (intros H; apply Hv; by right).
  reflexivity.
Qed.

Lemma valid_ethertype_dec (r : neutron_rule) :
  valid_ethertype r ∨ ¬ valid_ethertype r.
Proof.
  unfold valid_ethertype.
  destruct (decide (ethertype r = PyStr "IPv4")); [by left; left|].
  destruct (decide (ethertype r = PyStr "IPv6")); [by left; right|].
  right. by intros [H|H].
Qed.

(** The translation, field by field in the order in which the fields are
    assigned. *)
Lemma translation_fields (r : neutron_rule) :
  valid_ethertype r →
  _neutron_rule_to_etcd_rule r =
    Ok (set_if_some "dst_ports"
          (if py_eq (protocol r) (PyStr "icmp") then None
           else port_spec_of (port_range_min r) (port_range_max r))
       (set_if_some (net_key r) (not_none (resolved_net r))
       (set_if_some (tag_key r) (not_none (remote_group_id r))
       (set_if_some "icmp_code"
          (if py_eq (protocol r) (PyStr "icmp")
           then not_any (port_range_max r) else None)
       (set_if_some "icmp_type"
          (if py_eq (protocol r) (PyStr "icmp")
           then not_any (port_range_min r) else None)
       (set_if_some "protocol"
          (if is_none (protocol r) || py_eq (protocol r) (PyInt (-1))
           then None
           else if py_eq (protocol r) (PyStr "icmp")
                then Some (JAtom (if py_eq (ethertype r) (PyStr "IPv4")
                                  then PyStr "icmp" else PyStr "icmpv6"))
                else Some (JAtom (protocol r)))
       (<["ip_version" := JAtom (if py_eq (ethertype r) (PyStr "IPv4")
                                 then PyInt 4 else PyInt 6)]> ∅))))))).
Proof.
  intros Hv. unfold _neutron_rule_to_etcd_rule.
  rewrite !(ethertype_getitem _ _ r Hv).
  unfold resolved_net, any_address, tag_key, net_key, ingress.
  simpl.
  destruct (is_none (protocol r) || py_eq (protocol r) (PyInt (-1)));
    destruct (py_eq (protocol r) (PyStr "icmp"));
    destruct (truthy (py_or (remote_ip_prefix r) (remote_group_id r)));
    destruct (py_eq (direction r) (PyStr "ingress")); reflexivity.
Qed.

Lemma tag_net_keys_late (r : neutron_rule) :
  ∀ k, early_key k → tag_key r ≠ k ∧ net_key r ≠ k ∧ "dst_ports" ≠ k.
Proof.
  intros k Hk. unfold tag_key, net_key.
  destruct (ingress r), Hk as [-> | [-> | [-> | ->]]];
    repeat split; discriminate.
Qed.

(** A lookup of one of the fields that are assigned first passes over the
    fields of the final assembly. *)
Lemma lookup_early (r : neutron_rule) (k : string) o1 o2 o3
    (d : gmap string jval) :
  early_key k →
  set_if_some "dst_ports" o1
    (set_if_some (net_key r) o2 (set_if_some (tag_key r) o3 d)) !! k = d !! k.
Proof.
  intros Hk. destruct (tag_net_keys_late r k Hk) as (Ht & Hn & Hp).
  by rewrite !lookup_set_if_some_ne.
Qed.

Lemma translation_invalid (r : neutron_rule) :
  ¬ valid_ethertype r → _neutron_rule_to_etcd_rule r = Raise KeyError.
Proof.
  intros Hv. unfold _neutron_rule_to_etcd_rule.
  rewrite !(ethertype_getitem_error _ _ r Hv). reflexivity.
Qed.

Lemma translation_ok_valid (r : neutron_rule) (d : gmap string jval) :
  _neutron_rule_to_etcd_rule r = Ok d → valid_ethertype r.
Proof.
  intros Hd. destruct (valid_ethertype_dec r) as [Hv|Hv]; [done|].
  rewrite (translation_invalid r Hv) in Hd. discriminate.
Qed.

(** The translation returns a dictionary exactly for the ethertypes IPv4 and
    IPv6; for any other ethertype it raises [KeyError], and it raises nothing
    else. *)
Theorem translation_total_iff_ethertype (r : neutron_rule) :
  ((∃ d, _neutron_rule_to_etcd_rule r = Ok d) ↔ valid_ethertype r)
  ∧ (_neutron_rule_to_etcd_rule r = Raise KeyError ↔ ¬ valid_ethertype r)
  ∧ (∀ e, _neutron_rule_to_etcd_rule r = Raise e → e = KeyError).
Proof.
  destruct (valid_ethertype_dec r) as [Hv|Hv].
  - rewrite (translation_fields r Hv).
    split; [split; [done|eauto]|].
    split; [split; [discriminate|done]|].
    intros e H. discriminate.
  - rewrite (translation_invalid r Hv).
    split; [split; [intros [d H]; discriminate|done]|].
    split; [done|].
    intros e [= <-]. reflexivity.
Qed.

(** The [ip_version] field is 4 for IPv4 and 6 for IPv6.  The [protocol]
    field is left out when the rule's protocol is [None] or -1, is the
    family's name of ICMP when it is "icmp", and is the rule's protocol
    unchanged otherwise. *)
Theorem ip_version_and_protocol (r : neutron_rule) :
  valid_ethertype r →
  ∃ d, _neutron_rule_to_etcd_rule r = Ok d
  ∧ (ethertype r = PyStr "IPv4" → d !! "ip_version" = Some (JAtom (PyInt 4)))
  ∧ (ethertype r = PyStr "IPv6" → d !! "ip_version" = Some (JAtom (PyInt 6)))
  ∧ (protocol r = PyNone ∨ protocol r = PyInt (-1) → d !! "protocol" = None)
  ∧ (protocol r = PyStr "icmp" → ethertype r = PyStr "IPv4" →
       d !! "protocol" = Some (JAtom (PyStr "icmp")))
  ∧ (protocol r = PyStr "icmp" → ethertype r = PyStr "IPv6" →
       d !! "protocol" = Some (JAtom (PyStr "icmpv6")))
  ∧ (protocol r ≠ PyNone → protocol r ≠ PyInt (-1) →
     protocol r ≠ PyStr "icmp" →
       d !! "protocol" = Some (JAtom (protocol r))).
Proof.
  intros Hv. rewrite (translation_fields r Hv).
  eexists; split; [reflexivity|].
  rewrite !(lookup_early r "ip_version") by (unfold early_key; tauto).
  rewrite !(lookup_early r "protocol") by (unfold early_key; tauto).
  rewrite !(lookup_set_if_some_ne "icmp_code") by done.
  rewrite !(lookup_set_if_some_ne "icmp_type") by done.
  rewrite lookup_set_if_some_eq.
  rewrite (lookup_set_if_some_ne "protocol" "ip_version") by done.
  rewrite lookup_insert_eq, lookup_insert_ne, lookup_empty by done.
  repeat split.
  - intros ->. reflexivity.
  - intros ->. reflexivity.
  - intros [-> | ->]; reflexivity.
  - intros -> ->. reflexivity.
  - intros -> ->. reflexivity.
  - intros H1 H2 H3. apply py_eq_false in H2, H3. rewrite H2, H3.
    destruct (protocol r); done.
Qed.

(** The theorem [ip_version_and_protocol] at the ICMP rule for IPv6. *)
Lemma ip_version_and_protocol_witness :
  ∃ d, _neutron_rule_to_etcd_rule icmp6_ingress = Ok d
       ∧ d !! "ip_version" = Some (JAtom (PyInt 6))
       ∧ d !! "protocol" = Some (JAtom (PyStr "icmpv6")).
Proof.
  destruct (ip_version_and_protocol icmp6_ingress)
    as (d & Hd & _ & H6 & _ & _ & Hp & _).
  - right. reflexivity.
  - exists d. split; [exact Hd|]. split; [by apply H6|by apply Hp].
Defined.

Lemma not_any_specific (v : pyval) :
  (specific v → not_any v = Some (JAtom v))
  ∧ (¬ specific v → not_any v = None).
Proof.
  unfold specific, not_any, py_eq. split.
  - intros [H1 H2]. rewrite bool_decide_eq_false_2 by done.
    by destruct v.
  - intros H. destruct v as [|n|s]; [done| |exfalso; by apply H].
    destruct (decide (PyInt n = PyInt (-1))) as [Heq|Hne].
    + by rewrite bool_decide_eq_true_2.
    + exfalso. by apply H.
Qed.

(** For an ICMP rule the type and the code are taken from
    [port_range_min] and [port_range_max], each left out when it is [None]
    or -1, and no port list is set.  For any other protocol neither
    [icmp_type] nor [icmp_code] is set. *)
Theorem icmp_fields (r : neutron_rule) :
  valid_ethertype r →
  ∃ d, _neutron_rule_to_etcd_rule r = Ok d
  ∧ (protocol r = PyStr "icmp" →
       d !! "dst_ports" = None
       ∧ (specific (port_range_min r) →
            d !! "icmp_type" = Some (JAtom (port_range_min r)))
       ∧ (¬ specific (port_range_min r) → d !! "icmp_type" = None)
       ∧ (specific (port_range_max r) →
            d !! "icmp_code" = Some (JAtom (port_range_max r)))
       ∧ (¬ specific (port_range_max r) → d !! "icmp_code" = None))
  ∧ (protocol r ≠ PyStr "icmp" →
       d !! "icmp_type" = None ∧ d !! "icmp_code" = None).
Proof.
  intros Hv. rewrite (translation_fields r Hv).
  eexists; split; [reflexivity|].
  destruct (tag_net_keys_distinct r) as (_ & Htp & Hnp & _ & _).
  rewrite !(lookup_early r "icmp_type") by (unfold early_key; tauto).
  rewrite !(lookup_early r "icmp_code") by (unfold early_key; tauto).
  rewrite lookup_set_if_some_eq.
  rewrite !(lookup_set_if_some_ne (net_key r) "dst_ports") by done.
  rewrite !(lookup_set_if_some_ne (tag_key r) "dst_ports") by done.
  rewrite !(lookup_set_if_some_ne _ "dst_ports") by done.
  rewrite !(lookup_set_if_some_ne "icmp_code" "icmp_type") by done.
  rewrite !lookup_set_if_some_eq.
  rewrite !(lookup_set_if_some_ne "icmp_type" "icmp_code") by done.
  rewrite !(lookup_set_if_some_ne "protocol") by done.
  rewrite !lookup_insert_ne, !lookup_empty by done.
  split.
  - intros ->. simpl.
    destruct (not_any_specific (port_range_min r)) as [Hmin1 Hmin2].
    destruct (not_any_specific (port_range_max r)) as [Hmax1 Hmax2].
    repeat split.
    + intros H. by rewrite (Hmin1 H).
    + intros H. by rewrite (Hmin2 H).
    + intros H. by rewrite (Hmax1 H).
    + intros H. by rewrite (Hmax2 H).
  - intros Hp. apply py_eq_false in Hp. by rewrite Hp.
Qed.

(** The theorem [icmp_fields] at the ICMP rule for IPv6 with type 3 and
    code 4. *)
Lemma icmp_fields_witness :
  ∃ d, _neutron_rule_to_etcd_rule icmp6_ingress = Ok d
       ∧ d !! "dst_ports" = None
       ∧ d !! "icmp_type" = Some (JAtom (PyInt 3))
       ∧ d !! "icmp_code" = Some (JAtom (PyInt 4)).
Proof.
  destruct (icmp_fields icmp6_ingress) as (d & Hd & Hicmp & _).
  - right. reflexivity.
  - destruct (Hicmp eq_refl) as (Hp & Ht & _ & Hc & _).
    exists d. split; [exact Hd|]. split; [exact Hp|].
    split; [apply Ht|apply Hc]; split; discriminate.
Defined.

Lemma is_Some_set_if_some k k' o (d : gmap string jval) :
  is_Some (set_if_some k o d !! k') → k' = k ∨ is_Some (d !! k').
Proof.
  destruct (decide (k' = k)) as [->|Hne]; [by left|].
  rewrite lookup_set_if_some_ne by done. by right.
Qed.

(** A translated rule holds no key outside the nine field names; an ingress
    rule holds no field of the destination selector, and a rule of any other
    direction holds no field of the source selector. *)
Theorem direction_sides (r : neutron_rule) :
  valid_ethertype r →
  ∃ d, _neutron_rule_to_etcd_rule r = Ok d
  ∧ (∀ k, is_Some (d !! k) → k ∈ rule_keys)
  ∧ (direction r = PyStr "ingress" →
       d !! "dst_tag" = None ∧ d !! "dst_net" = None)
  ∧ (direction r ≠ PyStr "ingress" →
       d !! "src_tag" = None ∧ d !! "src_net" = None).
Proof.
  intros Hv. rewrite (translation_fields r Hv).
  eexists; split; [reflexivity|].
  split; [|split].
  - intros k Hk. unfold rule_keys.
    assert (Hside : tag_key r ∈ rule_keys ∧ net_key r ∈ rule_keys).
    { unfold tag_key, net_key, rule_keys.
      destruct (ingress r); split; repeat (first [by left | right]). }
    destruct Hside as [Htag Hnet].
    repeat (apply is_Some_set_if_some in Hk as [-> | Hk];
            [first [exact Htag | exact Hnet
                   | repeat (first [by left | right])]|]).
    destruct (decide (k = "ip_version")) as [->|Hne]; [by left|].
    rewrite lookup_insert_ne, lookup_empty in Hk by done.
    by destruct Hk.
  - intros Hdir. unfold tag_key, net_key, ingress.
    rewrite (proj2 (py_eq_true _ _) Hdir).
    rewrite !lookup_set_if_some_ne by done.
    by rewrite !lookup_insert_ne, lookup_empty.
  - intros Hdir. unfold tag_key, net_key, ingress.
    rewrite (proj2 (py_eq_false _ _) Hdir).
    rewrite !lookup_set_if_some_ne by done.
    by rewrite !lookup_insert_ne, lookup_empty.
Qed.

(** The theorem [direction_sides] at an egress rule. *)
Lemma direction_sides_witness :
  ∃ d, _neutron_rule_to_etcd_rule tcp_range_egress = Ok d
       ∧ d !! "src_tag" = None ∧ d !! "src_net" = None.
Proof.
  destruct (direction_sides tcp_range_egress) as (d & Hd & _ & _ & Hout).
  - right. reflexivity.
  - exists d. split; [exact Hd|]. apply Hout. discriminate.
Defined.

(** ** Profile identifiers: further properties *)

Lemma contains_char_app c (s1 s2 : string) :
  contains_char c (s1 +:+ s2) = contains_char c s1 || contains_char c s2.
Proof.
  induction s1 as [|a s1 IH]; [done|].
  change (String a s1 +:+ s2) with (String a (s1 +:+ s2)).
  simpl. rewrite IH. by rewrite orb_assoc.
Qed.

Lemma split_go_pieces (s : string) : ∀ cur,
  contains_char underscore cur = false →
  Forall no_underscore (split_go underscore cur s).
Proof.
  induction s as [|c s IH]; intros cur Hcur.
  - by repeat constructor.
  - change (split_go underscore cur (String c s))
      with (if Ascii.eqb c underscore
            then cur :: split_go underscore "" s
            else split_go underscore (cur +:+ String c "") s).
    destruct (Ascii.eqb c underscore) eqn:Hc.
    + constructor; [exact Hcur|]. by apply IH.
    + apply IH. rewrite contains_char_app, Hcur. simpl. by rewrite Hc.
Qed.

Lemma split_go_length (s : string) : ∀ cur,
  length (split_go underscore cur s) = S (count_char underscore s).
Proof.
  induction s as [|c s IH]; intros cur; [done|].
  change (split_go underscore cur (String c s))
    with (if Ascii.eqb c underscore
          then cur :: split_go underscore "" s
          else split_go underscore (cur +:+ String c "") s).
  simpl. destruct (Ascii.eqb c underscore); simpl; by rewrite IH.
Qed.

(** [profile_tags] never returns an empty list: it returns one tag more
    than the identifier has underscores, and no tag contains an
    underscore. *)
Theorem profile_tags_pieces (profile_id : string) :
  profile_tags profile_id ≠ []
  ∧ length (profile_tags profile_id) = S (count_char underscore profile_id)
  ∧ Forall no_underscore (profile_tags profile_id).
Proof.
  unfold profile_tags, split. split; [apply split_go_nonempty|].
  split; [apply split_go_length|]. by apply split_go_pieces.
Qed.

(** ** Endpoint documents *)

Lemma nets_of_cons v6 ip ips :
  nets_of v6 (ip :: ips) =
    (if eqb (is_ipv6 ip) v6
     then [PyStr (ip_address ip +:+ (if v6 then "/128" else "/32"))]
     else []) ++ nets_of v6 ips.
Proof. unfold nets_of. simpl. by destruct (eqb (is_ipv6 ip) v6). Qed.

Lemma gateways_of_cons v6 ip ips :
  gateways_of v6 (ip :: ips) =
    (if eqb (is_ipv6 ip) v6 && negb (is_none (gateway ip))
     then [gateway ip] else []) ++ gateways_of v6 ips.
Proof.
  unfold gateways_of. simpl. destruct (eqb (is_ipv6 ip) v6); [|done].
  simpl. by destruct (is_none (gateway ip)).
Qed.

Lemma nets_of_length (ips : list fixed_ip) :
  length (nets_of false ips) + length (nets_of true ips) = length ips.
Proof.
  induction ips as [|ip ips IH]; [done|].
  rewrite !nets_of_cons. destruct (is_ipv6 ip); simpl; lia.
Qed.

(** The loop over [fixed_ips]. *)
Lemma foldl_add_fixed_ip (ips : list fixed_ip) :
  ∀ (d : gmap string jval) (l4 l6 : list pyval),
  ∃ d' : gmap string jval,
    foldl add_fixed_ip (d, l4, l6) ips =
      (d', l4 ++ nets_of false ips, l6 ++ nets_of true ips)
    ∧ (∀ k, k ≠ "ipv4_gateway" → k ≠ "ipv6_gateway" → d' !! k = d !! k)
    ∧ d' !! "ipv4_gateway" = shown_gateway false ips (d !! "ipv4_gateway")
    ∧ d' !! "ipv6_gateway" = shown_gateway true ips (d !! "ipv6_gateway").
Proof.
  induction ips as [|ip ips IH]; intros d l4 l6.
  - exists d. simpl. by rewrite !app_nil_r.
  - simpl. unfold shown_gateway. rewrite !nets_of_cons, !gateways_of_cons.
    unfold is_ipv6.
    destruct (contains_char ":" (ip_address ip)) eqn:Hv6; simpl.
    + destruct (IH (set_if_some "ipv6_gateway" (not_none (gateway ip)) d)
                  l4 (l6 ++ [PyStr (ip_address ip +:+ "/128")]))
        as (d' & -> & Hother & H4 & H6).
      exists d'. rewrite <- app_assoc. split; [done|].
      split; [|split].
      * intros k Hk4 Hk6. rewrite Hother by done.
        by rewrite lookup_set_if_some_ne.
      * rewrite H4. unfold shown_gateway.
        by rewrite lookup_set_if_some_ne.
      * rewrite H6. unfold shown_gateway. rewrite lookup_set_if_some_eq.
        unfold not_none. destruct (is_none (gateway ip)); simpl; [done|].
        rewrite last_cons. by destruct (last (gateways_of true ips)).
    + destruct (IH (set_if_some "ipv4_gateway" (not_none (gateway ip)) d)
                  (l4 ++ [PyStr (ip_address ip +:+ "/32")]) l6)
        as (d' & -> & Hother & H4 & H6).
      exists d'. rewrite <- app_assoc. split; [done|].
      split; [|split].
      * intros k Hk4 Hk6. rewrite Hother by done.
        by rewrite lookup_set_if_some_ne.
      * rewrite H4. unfold shown_gateway. rewrite lookup_set_if_some_eq.
        unfold not_none. destruct (is_none (gateway ip)); simpl; [done|].
        rewrite last_cons. by destruct (last (gateways_of false ips)).
      * rewrite H6. unfold shown_gateway.
        by rewrite lookup_set_if_some_ne.
Qed.

(** The document of [port_etcd_data], by the loop lemma. *)
Lemma port_etcd_data_fields (port : port) (w : world) :
  ∃ d d' : gmap string jval,
    port_etcd_data port w = (Ok d, w)
    ∧ d = <["ipv6_nets" := JList (nets_of true (fixed_ips port))]>
          (<["ipv4_nets" := JList (nets_of false (fixed_ips port))]> d')
    ∧ d' !! "state" = Some (JAtom (PyStr (if admin_state_up port
                                          then "active" else "inactive")))
    ∧ d' !! "name" = Some (JAtom (interface_name port))
    ∧ d' !! "mac" = Some (JAtom (mac_address port))
    ∧ d' !! "profile_id" = Some (JAtom (PyStr (port_profile_id port)))
    ∧ d' !! "ipv4_gateway" = shown_gateway false (fixed_ips port) None
    ∧ d' !! "ipv6_gateway" = shown_gateway true (fixed_ips port) None
    ∧ (∀ k, is_Some (d' !! k) →
         k ∈ ["state"; "name"; "mac"; "profile_id"; "ipv4_gateway";
              "ipv6_gateway"]).
Proof.
  unfold port_etcd_data.
  match goal with
  | |- context [foldl add_fixed_ip (?d0, [], []) _] =>
      destruct (foldl_add_fixed_ip (fixed_ips port) d0 [] [])
        as (d' & Hfold & Hother & H4 & H6)
  end.
  rewrite Hfold. simpl. eexists; exists d'. split; [reflexivity|].
  split; [reflexivity|].
  rewrite !Hother by done. rewrite H4, H6.
  do 6 (split; [reflexivity|]).
  intros k Hk.
    destruct (decide (k = "ipv4_gateway")) as [->|Hk4];
      [repeat (first [by left | right])|].
    destruct (decide (k = "ipv6_gateway")) as [->|Hk6];
      [repeat (first [by left | right])|].
    rewrite Hother in Hk by done.
    destruct (decide (k = "profile_id")) as [->|H1];
      [repeat (first [by left | right])|].
    destruct (decide (k = "mac")) as [->|H2];
      [repeat (first [by left | right])|].
    destruct (decide (k = "name")) as [->|H3];
      [repeat (first [by left | right])|].
    destruct (decide (k = "state")) as [->|H5];
      [repeat (first [by left | right])|].
    rewrite !lookup_insert_ne, lookup_empty in Hk by done.
    by destruct Hk.
Qed.

(** The address lists of an endpoint document: the IPv4 addresses of
    [fixed_ips] (those without a colon) with "/32" appended and the IPv6
    addresses with "/128" appended, each list in the order of [fixed_ips];
    both keys are always present. *)
Theorem port_etcd_data_nets (port : port) (w : world) :
  ∃ d, port_etcd_data port w = (Ok d, w)
  ∧ d !! "ipv4_nets" = Some (JList (nets_of false (fixed_ips port)))
  ∧ d !! "ipv6_nets" = Some (JList (nets_of true (fixed_ips port)))
  ∧ length (nets_of false (fixed_ips port))
    + length (nets_of true (fixed_ips port)) = length (fixed_ips port).
Proof.
  destruct (port_etcd_data_fields port w) as (d & d' & Hrun & -> & _).
  exists (<["ipv6_nets" := JList (nets_of true (fixed_ips port))]>
          (<["ipv4_nets" := JList (nets_of false (fixed_ips port))]> d')).
  split; [exact Hrun|].
  split; [by rewrite lookup_insert_ne, lookup_insert_eq|].
  split; [by rewrite lookup_insert_eq|].
  apply nets_of_length.
Qed.

(** The gateway fields of an endpoint document: for each family, the
    gateway of the last address of the family in [fixed_ips] whose gateway
    is not [None]; the field is absent when the family has no such
    address. *)
Theorem port_etcd_data_gateways (port : port) (w : world) :
  ∃ d, port_etcd_data port w = (Ok d, w)
  ∧ d !! "ipv4_gateway" = JAtom <$> last (gateways_of false (fixed_ips port))
  ∧ d !! "ipv6_gateway" = JAtom <$> last (gateways_of true (fixed_ips port)).
Proof.
  destruct (port_etcd_data_fields port w)
    as (d & d' & Hrun & -> & _ & _ & _ & _ & H4 & H6 & _).
  eexists. split; [exact Hrun|].
  rewrite !lookup_insert_ne by done. rewrite H4, H6. unfold shown_gateway.
  split.
  - by destruct (last (gateways_of false (fixed_ips port))).
  - by destruct (last (gateways_of true (fixed_ips port))).
Qed.

(** The scalar fields of an endpoint document: [state] is "active" for a
    port that is administratively up and "inactive" otherwise, [name] and
    [mac] are the port's interface name and MAC address, [profile_id] is the
    identifier of [port_profile_id]; and the document holds no key outside
    the eight field names. *)
Theorem port_etcd_data_scalars (port : port) (w : world) :
  ∃ d, port_etcd_data port w = (Ok d, w)
  ∧ d !! "state" = Some (JAtom (PyStr (if admin_state_up port
                                       then "active" else "inactive")))
  ∧ d !! "name" = Some (JAtom (interface_name port))
  ∧ d !! "mac" = Some (JAtom (mac_address port))
  ∧ d !! "profile_id" = Some (JAtom (PyStr (port_profile_id port)))
  ∧ (∀ k, is_Some (d !! k) → k ∈ endpoint_keys).
Proof.
  destruct (port_etcd_data_fields port w)
    as (d & d' & Hrun & -> & Hs & Hn & Hm & Hp & _ & _ & Hkeys).
  eexists. split; [exact Hrun|].
  rewrite !lookup_insert_ne by done.
  split; [exact Hs|]. split; [exact Hn|]. split; [exact Hm|].
  split; [exact Hp|].
  intros k Hk. unfold endpoint_keys.
  destruct (decide (k = "ipv6_nets")) as [->|H6];
    [repeat (first [by left | right])|].
  destruct (decide (k = "ipv4_nets")) as [->|H4];
    [repeat (first [by left | right])|].
  rewrite !lookup_insert_ne in Hk by done.
  specialize (Hkeys k Hk).
  repeat (apply elem_of_cons in Hkeys as [->|Hkeys];
          [repeat (first [by left | right])|]).
  by apply elem_of_nil in Hkeys.
Qed.

(** ** What the methods preserve *)

Section Preserves.

Context (R : relation world) `{!PreOrder R}.

Lemma preserves_ret {A : Type} (a : A) : preserves R (mret a : M A).
Proof. intros w. simpl. reflexivity. Qed.

Lemma preserves_raise {A : Type} (e : exn) : preserves R (raise e : M A).
Proof. intros w. simpl. reflexivity. Qed.

Lemma preserves_lift {A : Type} (r : result A) : preserves R (lift r).
Proof. intros w. simpl. reflexivity. Qed.

Lemma preserves_get_attr {A : Type} (attr : transport → option A) :
  preserves R (get_attr attr).
Proof. intros w. unfold get_attr. destruct (attr (self w)); reflexivity. Qed.

Lemma preserves_bind {A B : Type} (m : M A) (f : A → M B) :
  preserves R m → (∀ a, preserves R (f a)) → preserves R (m ≫= f).
Proof.
  intros Hm Hf w. unfold mbind, M_bind. specialize (Hm w).
  destruct (m w) as [[a|e] w1]; simpl in *; [|exact Hm].
  etrans; [exact Hm|apply Hf].
Qed.

Lemma preserves_attempt {A : Type} (m : M A) :
  preserves R m → preserves R (attempt m).
Proof.
  intros Hm w. unfold attempt. specialize (Hm w).
  by destruct (m w) as [r w1].
Qed.

Lemma preserves_for_each {A : Type} (body : A → M unit) (l : list A) :
  (∀ x, preserves R (body x)) → preserves R (for_each l body).
Proof.
  intros Hbody. induction l as [|x l IH]; simpl.
  - apply preserves_ret.
  - apply preserves_bind; [apply Hbody|]. intros _. exact IH.
Qed.

(** The retry loop and the two loops around it preserve what the locked
    read and the sleep preserve. *)
Lemma preserves_wait_for_rules interference (sgid : string) :
  preserves R (read_rules sgid) →
  preserves R (sleep interference 200) →
  ∀ retries, preserves R (wait_for_rules interference retries sgid).
Proof.
  intros Hread Hsleep. induction retries as [|retries IH]; simpl.
  - apply preserves_raise.
  - apply preserves_bind; [by apply preserves_attempt|].
    intros [rules|[| |]]; try apply preserves_ret; try apply preserves_raise.
    destruct (bool_decide (retries = 0)); [apply preserves_raise|].
    apply preserves_bind; [exact Hsleep|]. intros _. exact IH.
Qed.

Lemma preserves_profile_rules_from interference :
  (∀ sgid, preserves R (read_rules sgid)) →
  preserves R (sleep interference 200) →
  ∀ sgids inb outb,
    preserves R (profile_rules_from interference sgids inb outb).
Proof.
  intros Hread Hsleep. induction sgids as [|sgid sgids IH]; intros inb outb.
  - apply preserves_ret.
  - change (profile_rules_from interference (sgid :: sgids) inb outb)
      with (rules ← wait_for_rules interference 20 sgid;
            io ← lift (translate_rules rules inb outb);
            profile_rules_from interference sgids io.1 io.2).
    apply preserves_bind; [by apply preserves_wait_for_rules|].
    intros rules. apply preserves_bind; [apply preserves_lift|].
    intros io. apply IH.
Qed.

End Preserves.

(** *** The store *)

(** Apply one of the lemmas above, at a relation whose order is found by
    instance search. *)
Ltac preserves_by lem := apply lem; try apply _.

#[global] Instance store_untouched_preorder : PreOrder store_untouched.
Proof.
  split.
  - by intros w.
  - intros w1 w2 w3 [H1 H1'] [H2 H2']. split; congruence.
Qed.

Lemma store_calls_app (tr1 tr2 : list event) :
  store_calls (tr1 ++ tr2) = store_calls tr1 ++ store_calls tr2.
Proof. unfold store_calls. apply List.filter_app. Qed.

Lemma store_untouched_emit (e : event) :
  store_calls [e] = [] → preserves store_untouched (emit e).
Proof.
  intros He w. split; simpl; [done|].
  by rewrite store_calls_app, He, app_nil_r.
Qed.

Lemma store_untouched_with_lock {A : Type} sem l (body : M A) :
  preserves store_untouched body →
  preserves store_untouched (with_lock sem l body).
Proof.
  intros Hbody. unfold with_lock.
  preserves_by @preserves_bind; [preserves_by @preserves_get_attr|].
  intros _. preserves_by @preserves_bind; [by apply store_untouched_emit|].
  intros _. preserves_by @preserves_bind; [by preserves_by @preserves_attempt|].
  intros r. preserves_by @preserves_bind; [by apply store_untouched_emit|].
  intros _. preserves_by @preserves_lift.
Qed.

Lemma store_untouched_read_rules (sgid : string) :
  preserves store_untouched (read_rules sgid).
Proof.
  unfold read_rules. apply store_untouched_with_lock.
  preserves_by @preserves_bind; [preserves_by @preserves_get_attr|].
  intros c. preserves_by @preserves_bind; [preserves_by @preserves_lift|].
  intros sg. preserves_by @preserves_ret.
Qed.

Lemma store_untouched_sleep interference (ms : nat) :
  preserves store_untouched (sleep interference ms).
Proof.
  intros w. split; simpl; [done|]. by rewrite store_calls_app, app_nil_r.
Qed.

(** [profile_rules] never calls the store and leaves its contents alone,
    whatever the cache holds, whatever the other threads do to the object
    while it sleeps, and whether it returns or raises. *)
Theorem profile_rules_store_untouched interference (profile_id : string)
    (w : world) :
  etcd (profile_rules interference profile_id w).2 = etcd w
  ∧ store_calls (trace (profile_rules interference profile_id w).2) =
      store_calls (trace w).
Proof.
  apply (preserves_profile_rules_from store_untouched interference
           store_untouched_read_rules
           (store_untouched_sleep interference 200)).
Qed.

(** [write_profile_to_etcd] writes both documents of the profile or
    nothing: when the build of the rules raises, the exception is passed on
    and the store is neither called nor changed; when it returns, the rules
    document is written first and the tags document second, and these two
    writes are the only calls to the store. *)
Theorem write_profile_to_etcd_all_or_nothing interference
    (key_for_profile_rules key_for_profile_tags : string → string)
    (profile_id : string) (w : world) :
  let r := write_profile_to_etcd interference key_for_profile_rules
             key_for_profile_tags profile_id w in
  (∃ e, (profile_rules interference profile_id w).1 = Raise e
        ∧ r.1 = Raise e ∧ etcd r.2 = etcd w
        ∧ store_calls (trace r.2) = store_calls (trace w))
  ∨ (∃ doc, (profile_rules interference profile_id w).1 = Ok doc
            ∧ r.1 = Ok tt
            ∧ etcd r.2 =
                <[key_for_profile_tags profile_id :=
                    JsonTags (profile_tags profile_id)]>
                  (<[key_for_profile_rules profile_id := JsonRules doc]>
                     (etcd w))
            ∧ store_calls (trace r.2) =
                store_calls (trace w)
                ++ [EvWrite (key_for_profile_rules profile_id)
                      (JsonRules doc);
                    EvWrite (key_for_profile_tags profile_id)
                      (JsonTags (profile_tags profile_id))]).
Proof.
  intros r. unfold r, write_profile_to_etcd.
  pose proof (preserves_profile_rules_from store_untouched interference
                store_untouched_read_rules
                (store_untouched_sleep interference 200)
                (profile_tags profile_id) [] [] w) as [Hetcd Hcalls].
  fold (profile_rules interference profile_id) in Hetcd, Hcalls.
  unfold client_write, mbind, M_bind.
  destruct (profile_rules interference profile_id w) as [[doc|e] w1];
    simpl in *.
  - right. exists doc. rewrite Hetcd. repeat split.
    rewrite !store_calls_app, Hcalls. simpl. by rewrite <- app_assoc.
  - left. exists e. by repeat split.
Qed.

(** *** The locks *)

Lemma locks_after_app (tr1 tr2 : list event) : ∀ held,
  locks_after held (tr1 ++ tr2) =
    held' ← locks_after held tr1; locks_after held' tr2.
Proof.
  induction tr1 as [|e tr1 IH]; intros held; [done|].
  destruct e as [l|l|sgid|ms|key|key v|key]; simpl.
  - destruct held; [apply IH|done].
  - destruct held as [|l' held]; [done|].
    destruct (bool_decide (l = l')); [apply IH|done].
  - destruct (bool_decide (SgsLock ∈ held)); [apply IH|done].
  - destruct held; [apply IH|done].
  - destruct held; [apply IH|done].
  - destruct held; [apply IH|done].
  - destruct held; [apply IH|done].
Qed.

#[global] Instance disciplined_under_preorder held :
  PreOrder (disciplined_under held).
Proof.
  split.
  - intros w. exists []. by rewrite app_nil_r.
  - intros w1 w2 w3 (r1 & H1 & L1) (r2 & H2 & L2). exists (r1 ++ r2).
    split; [by rewrite H2, H1, app_assoc|].
    rewrite locks_after_app, L1. exact L2.
Qed.

#[global] Instance disciplined_preorder : PreOrder disciplined.
Proof. apply disciplined_under_preorder. Qed.

(** [with sem: body], entered with no lock held, keeps the discipline when
    [body] keeps it with the one lock held; the lock is released also when
    [body] raises. *)
Lemma disciplined_with_lock {A : Type} sem l (body : M A) :
  preserves (disciplined_under [l]) body →
  preserves disciplined (with_lock sem l body).
Proof.
  intros Hbody w. unfold with_lock. unfold_M.
  destruct (sem (self w)) as [s|]; [|reflexivity].
  simpl.
  match goal with
  | |- context [body ?w0] =>
      destruct (Hbody w0) as (rest & Hrest & Hlocks);
      destruct (body w0) as [r w1]
  end.
  simpl in *. exists ([EvAcquire l] ++ rest ++ [EvRelease l]).
  split.
  - destruct r; simpl; rewrite Hrest; by rewrite <- !app_assoc.
  - simpl. rewrite locks_after_app, Hlocks. simpl.
    by rewrite bool_decide_eq_true_2.
Qed.

Lemma disciplined_read_rules (sgid : string) :
  preserves disciplined (read_rules sgid).
Proof.
  unfold read_rules. apply disciplined_with_lock.
  preserves_by @preserves_bind; [preserves_by @preserves_get_attr|].
  intros c. preserves_by @preserves_bind; [preserves_by @preserves_lift|].
  intros sg. preserves_by @preserves_ret.
Qed.

Lemma disciplined_sleep interference (ms : nat) :
  preserves disciplined (sleep interference ms).
Proof. intros w. by exists [EvSleep ms]. Qed.

Lemma disciplined_client_write key v :
  preserves disciplined (client_write key v).
Proof. intros w. by exists [EvWrite key v]. Qed.

Lemma disciplined_write_profile_to_etcd interference kr kt pid :
  preserves disciplined (write_profile_to_etcd interference kr kt pid).
Proof.
  unfold write_profile_to_etcd. preserves_by @preserves_bind.
  - apply (preserves_profile_rules_from disciplined interference
             disciplined_read_rules (disciplined_sleep interference 200)).
  - intros doc. preserves_by @preserves_bind;
      [apply disciplined_client_write|].
    intros _. apply disciplined_client_write.
Qed.

(** *** The locked reads of the cache *)

Lemma locked_reads_app (tr1 tr2 : list event) :
  locked_reads tr1 → locked_reads tr2 → locked_reads (tr1 ++ tr2).
Proof.
  intros H1 H2. induction H1 as [|tr1 _ IH|tr1 _ IH]; simpl.
  - exact H2.
  - by apply locked_reads_read.
  - by apply locked_reads_sleep.
Qed.

Lemma locked_reads_locks (tr : list event) :
  locked_reads tr → locks_after [] tr = Some [].
Proof. induction 1 as [|tr _ IH|tr _ IH]; simpl; done. Qed.

#[global] Instance reads_only_preorder : PreOrder reads_only.
Proof.
  split.
  - intros w. exists []. split; [by rewrite app_nil_r|constructor].
  - intros w1 w2 w3 (r1 & H1 & L1) (r2 & H2 & L2). exists (r1 ++ r2).
    split; [by rewrite H2, H1, app_assoc|by apply locked_reads_app].
Qed.

Lemma reads_only_read_rules (sgid : string) :
  preserves reads_only (read_rules sgid).
Proof.
  intros w. unfold read_rules, with_lock. unfold_M.
  destruct (_sgs_semaphore (self w)); [|reflexivity]. simpl.
  exists [EvAcquire SgsLock; EvRelease SgsLock].
  split; [|by repeat constructor].
  destruct (sgs (self w)) as [c|]; simpl; [|by rewrite <- app_assoc].
  destruct (c !! sgid); simpl; by rewrite <- app_assoc.
Qed.

Lemma reads_only_sleep interference :
  preserves reads_only (sleep interference 200).
Proof. intros w. exists [EvSleep 200]. split; [done|by repeat constructor]. Qed.

Lemma acquisitions_app (tr1 tr2 : list event) :
  acquisitions (tr1 ++ tr2) = acquisitions tr1 + acquisitions tr2.
Proof. unfold acquisitions. by rewrite List.filter_app, length_app. Qed.

(** A read of the cache that does not end in [AttributeError] has taken
    the lock once; no read sleeps. *)
Lemma read_rules_acquisitions (sgid : string) (w : world) :
  (read_rules sgid w).1 ≠ Raise AttributeError →
  acquisitions (trace (read_rules sgid w).2) = S (acquisitions (trace w))
  ∧ yields (read_rules sgid w).2 = yields w.
Proof.
  unfold read_rules, with_lock. unfold_M.
  destruct (_sgs_semaphore (self w)); [|done]. simpl.
  destruct (sgs (self w)) as [c|]; [|done]. simpl.
  intros _. destruct (c !! sgid); simpl;
    rewrite !acquisitions_app; unfold acquisitions; simpl;
    (split; [lia|done]).
Qed.

(** A wait that ends with the rules of the group has taken the lock once
    more than it has slept. *)
Lemma wait_for_rules_acquisitions interference (sgid : string) :
  ∀ retries (w : world) rules,
    (wait_for_rules interference retries sgid w).1 = Ok rules →
    acquisitions (trace (wait_for_rules interference retries sgid w).2)
    + yields w =
      S (acquisitions (trace w))
      + yields (wait_for_rules interference retries sgid w).2.
Proof.
  induction retries as [|retries IH]; intros w rules; [discriminate|].
  simpl. unfold_M.
  pose proof (read_rules_acquisitions sgid w) as Hread.
  destruct (read_rules sgid w) as [[rules'|[| |]] w1]; simpl in *;
    try discriminate.
  - intros _. destruct Hread as [Ha Hy]; [discriminate|]. lia.
  - destruct (bool_decide (retries = 0)); [discriminate|].
    destruct Hread as [Ha Hy]; [discriminate|].
    match goal with
    | |- context [wait_for_rules _ _ _ ?w0] =>
        intros Hok; pose proof (IH w0 rules Hok) as Hrec
    end.
    simpl in Hrec. rewrite acquisitions_app in Hrec.
    unfold acquisitions in *. simpl in Hrec. lia.
Qed.

Lemma profile_rules_from_acquisitions interference :
  ∀ sgids inb outb (w : world) doc,
    (profile_rules_from interference sgids inb outb w).1 = Ok doc →
    acquisitions (trace (profile_rules_from interference sgids inb outb w).2)
    + yields w =
      length sgids + acquisitions (trace w)
      + yields (profile_rules_from interference sgids inb outb w).2.
Proof.
  induction sgids as [|sgid sgids IH]; intros inb outb w doc.
  - simpl. intros _. lia.
  - rewrite profile_rules_from_cons.
    pose proof (wait_for_rules_acquisitions interference sgid 20 w) as Hwait.
    destruct (wait_for_rules interference 20 sgid w) as [[rules|e] w1];
      simpl in *; [|discriminate].
    specialize (Hwait rules eq_refl). unfold_M.
    destruct (translate_rules rules inb outb) as [io|e]; simpl;
      [|discriminate].
    intros Hok. specialize (IH io.1 io.2 w1 doc Hok). lia.
Qed.

(** The events of [profile_rules] are locked reads of the cache and sleeps
    of 200 ms and nothing else: every acquisition of the cache lock is
    directly followed by its release, also when the read raises, so that
    the thread never sleeps with the lock held and holds no lock when the
    call ends.  A call that returns a document has taken the lock once for
    each tag of the identifier and once more for each time it slept. *)
Theorem profile_rules_lock_discipline interference (profile_id : string)
    (w : world) :
  let r := profile_rules interference profile_id w in
  ∃ rest,
    trace r.2 = trace w ++ rest
    ∧ locked_reads rest
    ∧ locks_after [] rest = Some []
    ∧ (∀ doc, r.1 = Ok doc →
         acquisitions rest + yields w =
           length (profile_tags profile_id) + yields r.2).
Proof.
  intros r.
  destruct (preserves_profile_rules_from reads_only interference
              reads_only_read_rules (reads_only_sleep interference)
              (profile_tags profile_id) [] [] w) as (rest & Hrest & Hreads).
  fold (profile_rules interference profile_id) in Hrest. fold r in Hrest.
  exists rest. split; [exact Hrest|]. split; [exact Hreads|].
  split; [by apply locked_reads_locks|].
  intros doc Hok.
  pose proof (profile_rules_from_acquisitions interference
                (profile_tags profile_id) [] [] w doc Hok) as Hcount.
  fold (profile_rules interference profile_id) in Hcount. fold r in Hcount.
  rewrite Hrest, acquisitions_app in Hcount. lia.
Qed.

(** The call up to the rewrites, when the four attributes exist. *)
Lemma security_group_updated_run interference set_order kr kt
    (sg : security_group) (w : world) sem1 sem2 c needed :
  _sgs_semaphore (self w) = Some sem1 →
  sgs (self w) = Some c →
  profile_semaphore (self w) = Some sem2 →
  needed_profiles (self w) = Some needed →
  security_group_updated interference set_order kr kt sg w =
    for_each (set_order (collect_profiles set_order (sg_id sg) needed))
      (write_profile_to_etcd interference kr kt)
      {| self := {| driver := driver (self w);
                    _sgs_semaphore := Some sem1;
                    sgs := Some (<[sg_id sg := sg]> c);
                    profile_semaphore := Some sem2;
                    needed_profiles := Some needed |};
         etcd := etcd w;
         trace := trace w ++ [EvAcquire SgsLock; EvCacheSet (sg_id sg);
                              EvRelease SgsLock; EvAcquire ProfileLock;
                              EvRelease ProfileLock];
         yields := yields w |}.
Proof.
  intros Hsem Hsgs Hpsem Hneeded.
  unfold security_group_updated, with_lock, set_sgs. unfold_M.
  rewrite Hsem. simpl. rewrite Hsgs. simpl. rewrite Hpsem. simpl.
  rewrite Hneeded. simpl. f_equal. apply world_eq; simpl; try done.
  - by rewrite Hsem.
  - by rewrite <- !app_assoc.
Qed.

(** On every path of [security_group_updated], the exceptional ones
    included, and in whatever order the profiles are walked: at most one
    lock is held at a time (the cache lock is released before the profile
    lock is taken), the cache is written only while the cache lock is held,
    no lock is held during a write to the store or a sleep of the rewrites,
    and no lock is held when the call ends.  When the four attributes
    exist, the call begins by taking the cache lock, writing the entry and
    releasing the lock, and then takes and releases the profile lock. *)
Theorem security_group_updated_lock_discipline interference set_order
    (key_for_profile_rules key_for_profile_tags : string → string)
    (sg : security_group) (w : world) :
  let r := security_group_updated interference set_order
             key_for_profile_rules key_for_profile_tags sg w in
  (∃ rest, trace r.2 = trace w ++ rest ∧ locks_after [] rest = Some [])
  ∧ (∀ sem1 sem2 c needed,
       _sgs_semaphore (self w) = Some sem1 → sgs (self w) = Some c →
       profile_semaphore (self w) = Some sem2 →
       needed_profiles (self w) = Some needed →
       ∃ rest, trace r.2 =
                 trace w ++ [EvAcquire SgsLock; EvCacheSet (sg_id sg);
                             EvRelease SgsLock; EvAcquire ProfileLock;
                             EvRelease ProfileLock] ++ rest
               ∧ locks_after [] rest = Some []).
Proof.
  intros r. subst r. split.
  - revert w. change (preserves disciplined
      (security_group_updated interference set_order key_for_profile_rules
         key_for_profile_tags sg)).
    unfold security_group_updated.
    preserves_by @preserves_bind.
    + apply disciplined_with_lock.
      preserves_by @preserves_bind; [preserves_by @preserves_get_attr|].
      intros c w. exists [EvCacheSet (sg_id sg)]. split; [done|].
      reflexivity.
    + intros _. preserves_by @preserves_bind.
      * apply disciplined_with_lock.
        preserves_by @preserves_bind; [preserves_by @preserves_get_attr|].
        intros needed. preserves_by @preserves_ret.
      * intros profiles. preserves_by @preserves_for_each.
        intros pid. apply disciplined_write_profile_to_etcd.
  - intros sem1 sem2 c needed Hsem Hsgs Hpsem Hneeded.
    rewrite (security_group_updated_run interference set_order
               key_for_profile_rules key_for_profile_tags sg w
               sem1 sem2 c needed) by done.
    match goal with
    | |- context [for_each ?l ?f ?w0] =>
        destruct (preserves_for_each disciplined f l
                    (disciplined_write_profile_to_etcd interference
                       key_for_profile_rules key_for_profile_tags) w0)
          as (rest & Hrest & Hlocks)
    end.
    exists rest. split; [|exact Hlocks].
    rewrite Hrest. simpl. by rewrite <- app_assoc.
Qed.

(** *** The sleeps *)

#[global] Instance same_yields_preorder : PreOrder same_yields.
Proof.
  split.
  - by intros w.
  - intros w1 w2 w3 H1 H2. unfold same_yields in *. congruence.
Qed.

Lemma same_yields_read_rules (sgid : string) (w : world) :
  yields (read_rules sgid w).2 = yields w.
Proof.
  unfold read_rules, with_lock. unfold_M.
  destruct (_sgs_semaphore (self w)); [|done]. simpl.
  destruct (sgs (self w)) as [c|]; [|done]. simpl.
  by destruct (c !! sgid).
Qed.

Lemma wait_for_rules_sleeps interference (sgid : string) :
  ∀ retries (w : world),
    sleeps_at_most (pred retries) w
      (wait_for_rules interference retries sgid w).2.
Proof.
  induction retries as [|retries IH]; intros w.
  - simpl. unfold sleeps_at_most. simpl. lia.
  - simpl. unfold_M.
    pose proof (same_yields_read_rules sgid w) as Hread.
    destruct (read_rules sgid w) as [[rules|[| |]] w1]; simpl in *;
      try (unfold sleeps_at_most; lia).
    destruct (bool_decide (retries = 0)) eqn:Hr; simpl;
      [unfold sleeps_at_most; lia|].
    apply bool_decide_eq_false in Hr. unfold sleep.
    match goal with
    | |- context [wait_for_rules _ _ _ ?w0] =>
        destruct (IH w0) as [Hlo Hhi]
    end.
    simpl in *. unfold sleeps_at_most. lia.
Qed.

Lemma profile_rules_from_sleeps interference :
  ∀ sgids inb outb (w : world),
    sleeps_at_most (19 * length sgids) w
      (profile_rules_from interference sgids inb outb w).2.
Proof.
  induction sgids as [|sgid sgids IH]; intros inb outb w.
  - simpl. unfold sleeps_at_most. lia.
  - rewrite profile_rules_from_cons.
    destruct (wait_for_rules_sleeps interference sgid 20 w) as [Hlo Hhi].
    destruct (wait_for_rules interference 20 sgid w) as [[rules|e] w1];
      simpl in *; [|unfold sleeps_at_most; simpl; lia].
    unfold_M.
    destruct (translate_rules rules inb outb) as [io|e]; simpl;
      [|unfold sleeps_at_most; lia].
    destruct (IH io.1 io.2 w1) as [Hlo' Hhi'].
    unfold sleeps_at_most. lia.
Qed.

(** The waiting of [profile_rules] is bounded: whatever the cache holds and
    whatever the other threads do, a call sleeps at most 19 times for each
    tag of the profile identifier. *)
Theorem profile_rules_sleep_bound interference (profile_id : string)
    (w : world) :
  (yields w ≤ yields (profile_rules interference profile_id w).2
   ∧ yields (profile_rules interference profile_id w).2
     ≤ yields w + 19 * S (count_char underscore profile_id))%nat.
Proof.
  pose proof (profile_rules_from_sleeps interference
                (profile_tags profile_id) [] [] w) as H.
  unfold profile_tags, split in H. rewrite split_go_length in H.
  exact H.
Qed.

(** ** Configuration and the periodic resynchronisation *)

Lemma value_is_true (v : option etcd_value) (s : string) :
  value_is v s = true ↔ v = Some (Plain s).
Proof.
  unfold value_is. destruct v as [[s'| |]|]; try (split; discriminate).
  rewrite bool_decide_eq_true. split; [by intros ->|by intros [= ->]].
Qed.

(** A run on a store that is already configured: two reads, no write. *)
Lemma provide_felix_config_configured READY_KEY key_for_config (w : world) :
  etcd w !! key_for_config "InterfacePrefix" = Some (Plain "tap") →
  etcd w !! READY_KEY = Some (Plain "true") →
  provide_felix_config READY_KEY key_for_config w =
    (Ok tt, {| self := self w; etcd := etcd w;
               trace := trace w ++ [EvRead (key_for_config "InterfacePrefix");
                                    EvRead READY_KEY];
               yields := yields w |}).
Proof.
  intros Hp Hr. unfold provide_felix_config, client_read, client_write.
  unfold_M. simpl. rewrite Hp. simpl. rewrite Hr. simpl.
  f_equal. apply world_eq; simpl; try done. by rewrite <- app_assoc.
Qed.

(** The run on any store: the reads that are made, then a write for each
    value that was not read or differs. *)
Lemma provide_felix_config_run READY_KEY key_for_config (w : world) :
  let prefix_ok := value_is (etcd w !! key_for_config "InterfacePrefix")
                            "tap" in
  let ready_ok :=
    match etcd w !! key_for_config "InterfacePrefix" with
    | Some _ => value_is (etcd w !! READY_KEY) "true"
    | None => false
    end in
  ∃ tr,
    provide_felix_config READY_KEY key_for_config w =
      (Ok tt,
       {| self := self w;
          etcd := (if ready_ok then id else <[READY_KEY := Plain "true"]>)
                    ((if prefix_ok then id
                      else <[key_for_config "InterfacePrefix" := Plain "tap"]>)
                       (etcd w));
          trace := trace w ++ tr;
          yields := yields w |}).
Proof.
  unfold provide_felix_config, client_read, client_write. unfold_M. simpl.
  destruct (etcd w !! key_for_config "InterfacePrefix") as [[s| |]|]; simpl;
    destruct (etcd w !! READY_KEY) as [[s'| |]|]; simpl;
    try destruct (bool_decide (s = "tap")); simpl;
    try destruct (bool_decide (s' = "true")); simpl;
    eexists; f_equal; apply world_eq; simpl; try done;
    rewrite <- ?app_assoc; reflexivity.
Qed.

(** What a run leaves behind, whatever the store held. *)
Lemma provide_felix_config_outcome READY_KEY key_for_config (w : world) :
  READY_KEY ≠ key_for_config "InterfacePrefix" →
  let r := provide_felix_config READY_KEY key_for_config w in
  r.1 = Ok tt
  ∧ self r.2 = self w ∧ yields r.2 = yields w
  ∧ etcd r.2 !! key_for_config "InterfacePrefix" = Some (Plain "tap")
  ∧ etcd r.2 !! READY_KEY = Some (Plain "true")
  ∧ (∀ k, k ≠ key_for_config "InterfacePrefix" → k ≠ READY_KEY →
       etcd r.2 !! k = etcd w !! k).
Proof.
  intros Hne r. unfold r.
  destruct (provide_felix_config_run READY_KEY key_for_config w)
    as [tr ->]. simpl.
  split; [done|]. split; [done|]. split; [done|].
  destruct (value_is (etcd w !! key_for_config "InterfacePrefix") "tap")
    eqn:Hp.
  - apply value_is_true in Hp. rewrite Hp. simpl.
    destruct (value_is (etcd w !! READY_KEY) "true") eqn:Hr; simpl.
    + apply value_is_true in Hr. by repeat split.
    + rewrite lookup_insert_eq, lookup_insert_ne, Hp by done.
      repeat split. intros k _ Hk. by rewrite lookup_insert_ne.
  - assert (Hins : ∀ (m : gmap string etcd_value),
              (<[READY_KEY := Plain "true"]>
                 (<[key_for_config "InterfacePrefix" := Plain "tap"]> m))
                !! key_for_config "InterfacePrefix" = Some (Plain "tap")).
    { intros m. by rewrite lookup_insert_ne, lookup_insert_eq. }
    destruct (etcd w !! key_for_config "InterfacePrefix") as [prefix|];
      simpl.
    + destruct (value_is (etcd w !! READY_KEY) "true") eqn:Hr; simpl.
      * apply value_is_true in Hr.
        rewrite lookup_insert_eq, lookup_insert_ne, Hr by done.
        repeat split. intros k Hk _. by rewrite lookup_insert_ne.
      * rewrite Hins, lookup_insert_eq. repeat split.
        intros k Hk1 Hk2. by rewrite !lookup_insert_ne.
    + rewrite Hins, lookup_insert_eq. repeat split.
      intros k Hk1 Hk2. by rewrite !lookup_insert_ne.
Qed.

(** When the readiness key and the InterfacePrefix key are different keys,
    [provide_felix_config] returns normally from any store and leaves "tap"
    under the InterfacePrefix key and "true" under the readiness key; no
    other key changes, and the object is not touched. *)
Theorem provide_felix_config_establishes READY_KEY key_for_config
    (w : world) :
  READY_KEY ≠ key_for_config "InterfacePrefix" →
  let r := provide_felix_config READY_KEY key_for_config w in
  r.1 = Ok tt
  ∧ etcd r.2 !! key_for_config "InterfacePrefix" = Some (Plain "tap")
  ∧ etcd r.2 !! READY_KEY = Some (Plain "true")
  ∧ (∀ k, k ≠ key_for_config "InterfacePrefix" → k ≠ READY_KEY →
       etcd r.2 !! k = etcd w !! k)
  ∧ self r.2 = self w.
Proof.
  intros Hne r.
  destruct (provide_felix_config_outcome READY_KEY key_for_config w Hne)
    as (H1 & H2 & _ & H4 & H5 & H6).
  by repeat split.
Qed.

(** The theorem [provide_felix_config_establishes] on an empty store. *)
Lemma provide_felix_config_establishes_witness :
  let r := provide_felix_config example_READY_KEY example_key_for_config
             (world_of (__init__ 0) ∅) in
  r.1 = Ok tt ∧ etcd r.2 !! example_READY_KEY = Some (Plain "true").
Proof.
  destruct (provide_felix_config_establishes example_READY_KEY
              example_key_for_config (world_of (__init__ 0) ∅))
    as (H1 & _ & H3 & _); [discriminate|].
  split; [exact H1|exact H3].
Defined.

(** When the InterfacePrefix key is missing, the readiness key is not read:
    both values are written, also when the readiness key already holds
    "true". *)
Theorem provide_felix_config_missing_prefix READY_KEY key_for_config
    (w : world) :
  etcd w !! key_for_config "InterfacePrefix" = None →
  provide_felix_config READY_KEY key_for_config w =
    (Ok tt,
     {| self := self w;
        etcd := <[READY_KEY := Plain "true"]>
                  (<[key_for_config "InterfacePrefix" := Plain "tap"]>
                     (etcd w));
        trace := trace w
                 ++ [EvRead (key_for_config "InterfacePrefix");
                     EvWrite (key_for_config "InterfacePrefix") (Plain "tap");
                     EvWrite READY_KEY (Plain "true")];
        yields := yields w |}).
Proof.
  intros Hp. unfold provide_felix_config, client_read, client_write.
  unfold_M. simpl. rewrite Hp. simpl.
  f_equal. apply world_eq; simpl; try done. by rewrite <- !app_assoc.
Qed.

(** The theorem [provide_felix_config_missing_prefix] on a store that holds
    "true" under the readiness key and nothing else: the value is written
    again. *)
Lemma provide_felix_config_missing_prefix_witness :
  writes (trace (provide_felix_config example_READY_KEY
                   example_key_for_config
                   (world_of (__init__ 0)
                      {[example_READY_KEY := Plain "true"]})).2) =
    [(example_key_for_config "InterfacePrefix", Plain "tap");
     (example_READY_KEY, Plain "true")].
Proof.
  rewrite (provide_felix_config_missing_prefix example_READY_KEY
             example_key_for_config
             (world_of (__init__ 0) {[example_READY_KEY := Plain "true"]}));
    [reflexivity|].
  vm_compute. reflexivity.
Defined.

(** A second run of [provide_felix_config] right after a first one reads the
    two keys and writes nothing, whatever the store held before the first
    run, when the two keys are different. *)
Theorem provide_felix_config_twice READY_KEY key_for_config (w : world) :
  READY_KEY ≠ key_for_config "InterfacePrefix" →
  let w1 := (provide_felix_config READY_KEY key_for_config w).2 in
  provide_felix_config READY_KEY key_for_config w1 =
    (Ok tt, {| self := self w1; etcd := etcd w1;
               trace := trace w1 ++ [EvRead (key_for_config "InterfacePrefix");
                                     EvRead READY_KEY];
               yields := yields w1 |}).
Proof.
  intros Hne w1.
  destruct (provide_felix_config_outcome READY_KEY key_for_config w Hne)
    as (_ & _ & _ & H4 & H5 & _).
  by apply provide_felix_config_configured.
Qed.

(** The theorem [provide_felix_config_twice] from an empty store. *)
Lemma provide_felix_config_twice_witness :
  (provide_felix_config example_READY_KEY example_key_for_config
     (provide_felix_config example_READY_KEY example_key_for_config
        (world_of (__init__ 0) ∅)).2).1 = Ok tt.
Proof.
  rewrite (provide_felix_config_twice example_READY_KEY
             example_key_for_config (world_of (__init__ 0) ∅));
    [reflexivity|discriminate].
Defined.

(** One turn of the resynchronisation: the configuration step, then the
    sleep. *)
Lemma resync_cycle_run interference READY_KEY key_for_config (w : world) :
  READY_KEY ≠ key_for_config "InterfacePrefix" →
  let w1 := (provide_felix_config READY_KEY key_for_config w).2 in
  resync_cycle interference READY_KEY key_for_config w =
    (Ok tt, {| self := interference (yields w) (self w); etcd := etcd w1;
               trace := trace w1 ++ [EvSleep (PERIODIC_RESYNC_INTERVAL_SECS * 1000)];
               yields := S (yields w) |}).
Proof.
  intros Hne w1.
  destruct (provide_felix_config_outcome READY_KEY key_for_config w Hne)
    as (H1 & H2 & H3 & _).
  unfold resync_cycle, resync_endpoints, resync_security_groups, sleep.
  unfold mbind, M_bind, attempt, mret, M_ret. unfold w1.
  destruct (provide_felix_config READY_KEY key_for_config w) as [res w'].
  simpl in H1, H2, H3. subst res. cbn [fst snd]. by rewrite H2, H3.
Qed.

Lemma periodic_resync_thread_configured interference READY_KEY
    key_for_config :
  ∀ cycles (w : world),
  etcd w !! key_for_config "InterfacePrefix" = Some (Plain "tap") →
  etcd w !! READY_KEY = Some (Plain "true") →
  let r := periodic_resync_thread interference READY_KEY key_for_config
             cycles w in
  r.1 = Ok tt ∧ etcd r.2 = etcd w ∧ yields r.2 = cycles + yields w
  ∧ writes (trace r.2) = writes (trace w).
Proof.
  induction cycles as [|cycles IH]; intros w Hp Hready r; [done|].
  set (w2 := {| self := interference (yields w) (self w); etcd := etcd w;
                trace := (trace w
                          ++ [EvRead (key_for_config "InterfacePrefix");
                              EvRead READY_KEY])
                         ++ [EvSleep (PERIODIC_RESYNC_INTERVAL_SECS * 1000)];
                yields := S (yields w) |}).
  assert (Hr : r = periodic_resync_thread interference READY_KEY
                     key_for_config cycles w2).
  { unfold r.
    change (periodic_resync_thread interference READY_KEY key_for_config
              (S cycles) w)
      with ((_ ← resync_cycle interference READY_KEY key_for_config;
             periodic_resync_thread interference READY_KEY key_for_config
               cycles) w).
    unfold mbind at 1. unfold M_bind.
    unfold resync_cycle, resync_endpoints, resync_security_groups, sleep.
    unfold mbind, M_bind, attempt, mret, M_ret.
    by rewrite provide_felix_config_configured. }
  destruct (IH w2) as (I1 & I2 & I3 & I4); [done|done|].
  rewrite <- Hr in I1, I2, I3, I4.
  split; [exact I1|]. split; [exact I2|].
  split; [rewrite I3; simpl; lia|].
  rewrite I4. simpl. by rewrite !writes_app, !app_nil_r.
Qed.

(** The resynchronisation loop, turn by turn, when the readiness key and the
    InterfacePrefix key are different: no turn ends in an exception, every
    turn sleeps once, and all the writes to the store are those of the
    configuration step of the first turn; the later turns write nothing. *)
Theorem periodic_resync_thread_turns interference READY_KEY key_for_config
    (cycles : nat) (w : world) :
  READY_KEY ≠ key_for_config "InterfacePrefix" →
  let r := periodic_resync_thread interference READY_KEY key_for_config
             (S cycles) w in
  let w1 := (provide_felix_config READY_KEY key_for_config w).2 in
  r.1 = Ok tt
  ∧ yields r.2 = S cycles + yields w
  ∧ etcd r.2 = etcd w1
  ∧ writes (trace r.2) = writes (trace w1).
Proof.
  intros Hne r w1.
  destruct (provide_felix_config_outcome READY_KEY key_for_config w Hne)
    as (_ & _ & _ & H4 & H5 & _).
  fold w1 in H4, H5.
  set (w2 := {| self := interference (yields w) (self w); etcd := etcd w1;
                trace := trace w1
                         ++ [EvSleep (PERIODIC_RESYNC_INTERVAL_SECS * 1000)];
                yields := S (yields w) |}).
  assert (Hr : r = periodic_resync_thread interference READY_KEY
                     key_for_config cycles w2).
  { unfold r.
    change (periodic_resync_thread interference READY_KEY key_for_config
              (S cycles) w)
      with ((_ ← resync_cycle interference READY_KEY key_for_config;
             periodic_resync_thread interference READY_KEY key_for_config
               cycles) w).
    unfold mbind at 1. unfold M_bind.
    by rewrite resync_cycle_run. }
  destruct (periodic_resync_thread_configured interference READY_KEY
              key_for_config cycles w2) as (I1 & I2 & I3 & I4);
    [exact H4|exact H5|].
  rewrite <- Hr in I1, I2, I3, I4.
  split; [exact I1|]. split; [rewrite I3; simpl; lia|].
  split; [exact I2|].
  rewrite I4. simpl. by rewrite writes_app, app_nil_r.
Qed.

(** The theorem [periodic_resync_thread_turns] for three turns from an
    empty store. *)
Lemma periodic_resync_thread_turns_witness :
  let r := periodic_resync_thread no_interference example_READY_KEY
             example_key_for_config 3 (world_of (__init__ 0) ∅) in
  r.1 = Ok tt ∧ yields r.2 = 3.
Proof.
  destruct (periodic_resync_thread_turns no_interference example_READY_KEY
              example_key_for_config 2 (world_of (__init__ 0) ∅))
    as (H1 & H2 & _); [discriminate|].
  split; [exact H1|exact H2].
Defined.

(** ** Endpoint events *)

Lemma endpoint_deleted_run key_for_endpoint (port : port) (w : world) :
  endpoint_deleted key_for_endpoint port w =
    (Ok tt, {| self := self w;
               etcd := delete (port_etcd_key key_for_endpoint port) (etcd w);
               trace := trace w
                        ++ [EvDelete (port_etcd_key key_for_endpoint port)];
               yields := yields w |}).
Proof.
  unfold endpoint_deleted, client_delete. unfold_M.
  destruct (etcd w !! port_etcd_key key_for_endpoint port); reflexivity.
Qed.

(** After [endpoint_deleted] the key of the endpoint (the key that
    [key_for_endpoint] gives for the port's host, the orchestrator
    "openstack", the port's device and the port's id) is absent, and a
    second call for the same port deletes the same key again, returns
    normally and leaves the store as the first call left it. *)
Theorem endpoint_deleted_twice key_for_endpoint (port : port) (w : world) :
  let key := key_for_endpoint (binding_host_id port) "openstack"
               (device_id port) (port_id port) in
  let w1 := (endpoint_deleted key_for_endpoint port w).2 in
  let r := endpoint_deleted key_for_endpoint port w1 in
  etcd w1 !! key = None
  ∧ r.1 = Ok tt
  ∧ etcd r.2 = etcd w1
  ∧ trace r.2 = trace w ++ [EvDelete key; EvDelete key].
Proof.
  intros key w1 r. unfold r, w1. rewrite !endpoint_deleted_run. simpl.
  unfold port_etcd_key. fold key.
  split; [by rewrite lookup_delete_eq|]. split; [done|].
  split; [apply delete_id; by rewrite lookup_delete_eq|].
  by rewrite <- app_assoc.
Qed.

(** [endpoint_created] and [endpoint_updated] raise [AttributeError] before
    anything is read or written: the class has no [write_port_to_etcd], and
    the profile is not written either, also when all its groups are in the
    cache. *)
Theorem endpoint_created_attribute_error interference
    (key_for_profile_rules key_for_profile_tags : string → string)
    (port : port) (profile : string) (w : world) :
  endpoint_created interference key_for_profile_rules key_for_profile_tags
    port profile w = (Raise AttributeError, w)
  ∧ endpoint_updated interference key_for_profile_rules key_for_profile_tags
      port profile w = (Raise AttributeError, w).
Proof. split; reflexivity. Qed.

(** ** Profile assembly: further properties *)

Lemma translate_all_raise (rules : list neutron_rule) (e : exn) :
  translate_all rules = Raise e → e = KeyError.
Proof.
  induction rules as [|rule rules IH]; [discriminate|]. simpl.
  destruct (valid_ethertype_dec rule) as [Hv|Hv].
  - rewrite (translation_fields rule Hv). simpl.
    destruct (translate_all rules) as [ds|e']; simpl; [discriminate|].
    intros [= <-]. by apply IH.
  - rewrite (translation_invalid rule Hv). simpl. by intros [= <-].
Qed.

Lemma translate_all_app (l1 l2 : list neutron_rule) :
  translate_all (l1 ++ l2) =
    (a ← translate_all l1; b ← translate_all l2; Ok (a ++ b)).
Proof.
  induction l1 as [|rule l1 IH]; simpl.
  - by destruct (translate_all l2).
  - destruct (_neutron_rule_to_etcd_rule rule) as [d|e]; simpl; [|done].
    rewrite IH. destruct (translate_all l1) as [a|e]; simpl; [|done].
    by destruct (translate_all l2).
Qed.

Lemma translate_all_length (rules : list neutron_rule) ds :
  translate_all rules = Ok ds → length ds = length rules.
Proof.
  revert ds. induction rules as [|rule rules IH]; intros ds; simpl.
  - by intros [= <-].
  - destruct (_neutron_rule_to_etcd_rule rule) as [d|e]; simpl; [|done].
    destruct (translate_all rules) as [ds'|e]; simpl; [|done].
    intros [= <-]. simpl. f_equal. by apply IH.
Qed.

Lemma translate_all_valid (rules : list neutron_rule) :
  Forall valid_ethertype rules → ∃ ds, translate_all rules = Ok ds.
Proof.
  induction 1 as [|rule rules Hv _ [ds IH]]; [by exists []|].
  simpl. rewrite (translation_fields rule Hv). simpl. rewrite IH. simpl.
  eauto.
Qed.

(** The loop over the rules of a group, by the direction of the rules. *)
Lemma translate_rules_by_direction (rules : list neutron_rule) :
  ∀ inbound outbound,
  translate_rules rules inbound outbound =
    (ins ← translate_all (List.filter ingress rules);
     outs ← translate_all (List.filter (λ r, negb (ingress r)) rules);
     Ok (inbound ++ ins, outbound ++ outs)).
Proof.
  induction rules as [|rule rules IH]; intros inb outb.
  - simpl. by rewrite !app_nil_r.
  - simpl. fold (ingress rule).
    destruct (_neutron_rule_to_etcd_rule rule) as [d|e] eqn:Hd; simpl.
    + destruct (ingress rule); simpl; rewrite Hd; simpl; rewrite IH.
      * destruct (translate_all (List.filter ingress rules)) as [ins|e];
          simpl; [|done].
        destruct (translate_all
                    (List.filter (λ r, negb (ingress r)) rules))
          as [outs|e]; simpl; [|done].
        by rewrite <- app_assoc.
      * destruct (translate_all (List.filter ingress rules)) as [ins|e];
          simpl; [|done].
        destruct (translate_all
                    (List.filter (λ r, negb (ingress r)) rules))
          as [outs|e]; simpl; [|done].
        by rewrite <- app_assoc.
    + assert (He : e = KeyError).
      { destruct (valid_ethertype_dec rule) as [Hv|Hv].
        - rewrite (translation_fields rule Hv) in Hd. discriminate.
        - rewrite (translation_invalid rule Hv) in Hd. by injection Hd. }
      subst e. destruct (ingress rule); simpl; rewrite Hd; simpl; [done|].
      destruct (translate_all (List.filter ingress rules)) as [ins|e] eqn:Hi;
        simpl; [done|].
      by rewrite (translate_all_raise _ _ Hi).
Qed.

(** The loop over the rules of a group appends the translations of the
    ingress rules to the inbound list and the translations of all other
    rules to the outbound list, each in the order of the rules; it raises
    when one of the rules does not translate. *)
Theorem translate_rules_partition (rules : list neutron_rule)
    (inbound outbound : list (gmap string jval)) :
  translate_rules rules inbound outbound =
    (ins ← translate_all (List.filter ingress rules);
     outs ← translate_all (List.filter (λ r, negb (ingress r)) rules);
     Ok (inbound ++ ins, outbound ++ outs)).
Proof. apply translate_rules_by_direction. Qed.

(** The document that the cache determines, by the rules of the groups. *)
Lemma build_rules_cached (c : gmap string security_group) :
  ∀ sgids rules ins outs inb outb,
  cached_rules c sgids = Some rules →
  translate_all (List.filter ingress rules) = Ok ins →
  translate_all (List.filter (λ r, negb (ingress r)) rules) = Ok outs →
  build_rules c sgids inb outb =
    Ok {| inbound_rules := inb ++ ins; outbound_rules := outb ++ outs |}.
Proof.
  induction sgids as [|sgid sgids IH]; intros rules ins outs inb outb.
  - simpl. intros [= <-]. simpl. intros [= <-] [= <-].
    by rewrite !app_nil_r.
  - simpl. destruct (c !! sgid) as [sg|]; simpl; [|discriminate].
    destruct (cached_rules c sgids) as [rules'|]; simpl; [|discriminate].
    intros [= <-]. rewrite !List.filter_app, !translate_all_app.
    rewrite translate_rules_by_direction.
    destruct (translate_all (List.filter ingress (security_group_rules sg)))
      as [ins1|e]; simpl; [|discriminate].
    destruct (translate_all (List.filter ingress rules')) as [ins2|e] eqn:H2;
      simpl; [|discriminate].
    intros [= <-].
    destruct (translate_all
                (List.filter (λ r, negb (ingress r))
                   (security_group_rules sg)))
      as [outs1|e]; simpl; [|discriminate].
    destruct (translate_all (List.filter (λ r, negb (ingress r)) rules'))
      as [outs2|e] eqn:H3; simpl; [|discriminate].
    intros [= <-].
    rewrite (IH rules' ins2 outs2) by done.
    by rewrite <- !app_assoc.
Qed.

(** When the cache holds every group of the profile and all their rules
    have ethertype IPv4 or IPv6, [profile_rules] returns without sleeping
    and without changing the object or the store; the inbound list holds
    the translations of the ingress rules and the outbound list those of
    the other rules, group after group in the order of the tags and rule
    after rule within a group. *)
Theorem profile_rules_cached interference (profile_id : string) (w : world)
    sem c rules :
  _sgs_semaphore (self w) = Some sem →
  sgs (self w) = Some c →
  cached_rules c (profile_tags profile_id) = Some rules →
  Forall valid_ethertype rules →
  let r := profile_rules interference profile_id w in
  ∃ ins outs,
    translate_all (List.filter ingress rules) = Ok ins
    ∧ translate_all (List.filter (λ r, negb (ingress r)) rules) = Ok outs
    ∧ r.1 = Ok {| inbound_rules := ins; outbound_rules := outs |}
    ∧ length ins + length outs = length rules
    ∧ self r.2 = self w ∧ etcd r.2 = etcd w ∧ yields r.2 = yields w.
Proof.
  intros Hsem Hsgs Hrules Hvalid r.
  destruct (translate_all_valid (List.filter ingress rules)) as [ins Hins].
  { apply Forall_forall. intros x Hx. apply list_elem_of_In in Hx.
    apply List.filter_In in Hx as [Hx _]. apply list_elem_of_In in Hx.
    by eapply Forall_forall in Hvalid. }
  destruct (translate_all_valid
              (List.filter (λ r, negb (ingress r)) rules)) as [outs Houts].
  { apply Forall_forall. intros x Hx. apply list_elem_of_In in Hx.
    apply List.filter_In in Hx as [Hx _]. apply list_elem_of_In in Hx.
    by eapply Forall_forall in Hvalid. }
  exists ins, outs. split; [exact Hins|]. split; [exact Houts|].
  unfold r, profile_rules.
  rewrite (profile_rules_from_cached interference c sem _ _ _
             {| inbound_rules := ins; outbound_rules := outs |})
    by (try done; by apply (build_rules_cached c _ rules ins outs [] [])).
  simpl. repeat split.
  rewrite (translate_all_length _ _ Hins), (translate_all_length _ _ Houts).
  clear. induction rules as [|rule rules IH]; [done|].
  simpl. destruct (ingress rule); simpl; lia.
Qed.

(** The theorem [profile_rules_cached] for the profile of the group [a],
    which has one ingress and one egress rule. *)
Lemma profile_rules_cached_witness :
  ∃ doc,
    (profile_rules no_interference "a"
       (world_of (transport_with {["a" := sg_a]} ∅) ∅)).1 = Ok doc
    ∧ length (inbound_rules doc) + length (outbound_rules doc) = 2.
Proof.
  destruct (profile_rules_cached no_interference "a"
              (world_of (transport_with {["a" := sg_a]} ∅) ∅)
              Semaphore {["a" := sg_a]} [any_ipv4_ingress; tcp_range_egress])
    as (ins & outs & _ & _ & Hdoc & Hlen & _).
  - reflexivity.
  - reflexivity.
  - vm_compute. reflexivity.
  - constructor; [by left|]. constructor; [by right|]. constructor.
  - eexists. split; [exact Hdoc|exact Hlen].
Defined.

(** ** Security group updates: further properties *)


(** When the cache and its lock exist but the lock or the set of the needed
    profiles does not, [security_group_updated] has already replaced the
    cache entry when it raises [AttributeError]: the update of the cache is
    kept, nothing is written to the store, and no profile is rewritten. *)
Theorem security_group_updated_partial interference set_order
    (key_for_profile_rules key_for_profile_tags : string → string)
    (sg : security_group) (w : world) sem c :
  _sgs_semaphore (self w) = Some sem →
  sgs (self w) = Some c →
  profile_semaphore (self w) = None ∨ needed_profiles (self w) = None →
  let r := security_group_updated interference set_order
             key_for_profile_rules key_for_profile_tags sg w in
  r.1 = Raise AttributeError
  ∧ sgs (self r.2) = Some (<[sg_id sg := sg]> c)
  ∧ etcd r.2 = etcd w
  ∧ store_calls (trace r.2) = store_calls (trace w)
  ∧ locks_after [] [EvAcquire SgsLock; EvCacheSet (sg_id sg);
                    EvRelease SgsLock] = Some []
  ∧ ∃ rest, trace r.2 = trace w ++ [EvAcquire SgsLock; EvCacheSet (sg_id sg);
                                    EvRelease SgsLock] ++ rest.
Proof.
  intros Hsem Hsgs Hmissing r.
  unfold r, security_group_updated, with_lock, set_sgs. unfold_M.
  rewrite Hsem. simpl. rewrite Hsgs. simpl.
  destruct (profile_semaphore (self w)) as [sem2|] eqn:Hpsem; simpl.
  - destruct Hmissing as [Hmissing|Hmissing]; [discriminate|].
    rewrite Hmissing. simpl. repeat split.
    + by rewrite !store_calls_app, !app_nil_r.
    + exists [EvAcquire ProfileLock; EvRelease ProfileLock].
      by rewrite <- !app_assoc.
  - repeat split.
    + by rewrite !store_calls_app, !app_nil_r.
    + exists []. by rewrite <- !app_assoc.
Qed.

(** The theorem [security_group_updated_partial] on an instance that has a
    cache and its lock only. *)
Lemma security_group_updated_partial_witness :
  let t := {| driver := 0; _sgs_semaphore := Some Semaphore;
              sgs := Some ∅; profile_semaphore := None;
              needed_profiles := None |} in
  let r := security_group_updated no_interference example_set_order
             example_key_for_profile_rules example_key_for_profile_tags
             sg_a (world_of t ∅) in
  r.1 = Raise AttributeError ∧ sgs (self r.2) = Some (<["a" := sg_a]> ∅).
Proof.
  intros t.
  destruct (security_group_updated_partial no_interference
              example_set_order example_key_for_profile_rules example_key_for_profile_tags
              sg_a (world_of t ∅) Semaphore ∅) as (H1 & H2 & _).
  - reflexivity.
  - reflexivity.
  - by left.
  - split; [exact H1|exact H2].
Defined.



Lemma translate_rules_invalid (rules : list neutron_rule) :
  Exists (λ rule, ¬ valid_ethertype rule) rules →
  ∀ inb outb, translate_rules rules inb outb = Raise KeyError.
Proof.
  induction 1 as [rule rules Hbad|rule rules _ IH]; intros inb outb; simpl.
  - by rewrite (translation_invalid rule Hbad).
  - destruct (valid_ethertype_dec rule) as [Hv|Hv].
    + rewrite (translation_fields rule Hv). simpl.
      destruct (py_eq (direction rule) (PyStr "ingress")); apply IH.
    + by rewrite (translation_invalid rule Hv).
Qed.

(** The [KeyError] of a rule that does not translate is not taken for a
    missing group: when the loop of [profile_rules] comes to a group that is
    in the cache and one of its rules has an ethertype other than IPv4 and
    IPv6, the call raises [KeyError] after that one read of the cache,
    without retrying and without sleeping. *)
Theorem profile_rules_untranslatable interference (sgid : string)
    (rest : list string) inb outb (w : world) sem c sg :
  _sgs_semaphore (self w) = Some sem →
  sgs (self w) = Some c →
  c !! sgid = Some sg →
  Exists (λ rule, ¬ valid_ethertype rule) (security_group_rules sg) →
  profile_rules_from interference (sgid :: rest) inb outb w =
    (Raise KeyError,
     {| self := self w; etcd := etcd w;
        trace := trace w ++ [EvAcquire SgsLock; EvRelease SgsLock];
        yields := yields w |}).
Proof.
  intros Hsem Hsgs Hsg Hbad. rewrite profile_rules_from_cons.
  rewrite (wait_found _ _ _ _ (security_group_rules sg))
    by (unfold cache_lookup; by rewrite Hsem, Hsgs, Hsg).
  unfold_M. by rewrite (translate_rules_invalid _ Hbad).
Qed.

(** The theorem [profile_rules_untranslatable] for a profile of one group
    whose only rule has the ethertype "ARP". *)
Lemma profile_rules_untranslatable_witness :
  let bad := {| direction := PyStr "ingress"; ethertype := PyStr "ARP";
                protocol := PyNone; remote_group_id := PyNone;
                remote_ip_prefix := PyNone; port_range_min := PyNone;
                port_range_max := PyNone |} in
  let sg := {| sg_id := "b"; security_group_rules := [bad] |} in
  let r := profile_rules no_interference "b"
             (world_of (transport_with {["b" := sg]} ∅) ∅) in
  r.1 = Raise KeyError ∧ yields r.2 = 0.
Proof.
  intros bad sg r. unfold r.
  change (profile_rules no_interference "b"
            (world_of (transport_with {["b" := sg]} ∅) ∅))
    with (profile_rules_from no_interference ["b"] [] []
            (world_of (transport_with {["b" := sg]} ∅) ∅)).
  rewrite (profile_rules_untranslatable no_interference "b" [] [] []
             (world_of (transport_with {["b" := sg]} ∅) ∅)
             Semaphore {["b" := sg]} sg).
  - split; reflexivity.
  - reflexivity.
  - reflexivity.
  - vm_compute. reflexivity.
  - left. intros [H|H]; discriminate.
Defined.

(** ** Security group updates: the rewrites *)





